(** * BigQuery usage extraction: event store, correlation and aggregation

    A shallow embedding of
    [metadata-ingestion/src/datahub/ingestion/source/bigquery_v2/usage.py]:
    the usage state ([BigQueryUsageState]), the correlator
    ([_store_usage_event], [_ingest_events]), the aggregation query
    ([usage_statistics_query]) with the emission loop
    ([_generate_usage_workunits]) and the operational deriver
    ([standalone_events], [_get_destination_table],
    [_extract_operational_meta], [_create_operation_workunit]).

    Python dictionaries are finite maps ([gmap]); the SQLite-backed tables
    that the SQL text joins and groups are lists of rows; the extractor's
    mutable objects are threaded through a state-and-exception monad. *)

From Stdlib Require Import ZArith String Ascii List Permutation Lia DecimalString
  Sorted.
From stdpp Require Import base option list strings gmap.
Import ListNotations.

Open Scope string_scope.
Open Scope list_scope.

(** ** hashlib.md5

    [hashlib.md5(b).hexdigest()] after RFC 1321, on 32-bit words kept in [Z]
    with the wrap-around written out.  A text stands for its UTF-8 bytes. *)
Module MD5.
Open Scope Z_scope.

Definition mask32 (x : Z) : Z := x mod 2 ^ 32.
Definition add32 (x y : Z) : Z := mask32 (x + y).
Definition not32 (x : Z) : Z := Z.lxor x 4294967295.
Definition rotl32 (x : Z) (c : Z) : Z :=
  Z.lor (mask32 (Z.shiftl x c)) (Z.shiftr x (32 - c)).

Definition shifts : list Z :=
  [7; 12; 17; 22; 7; 12; 17; 22; 7; 12; 17; 22; 7; 12; 17; 22;
   5; 9; 14; 20; 5; 9; 14; 20; 5; 9; 14; 20; 5; 9; 14; 20;
   4; 11; 16; 23; 4; 11; 16; 23; 4; 11; 16; 23; 4; 11; 16; 23;
   6; 10; 15; 21; 6; 10; 15; 21; 6; 10; 15; 21; 6; 10; 15; 21].

Definition sines : list Z :=
  [0xd76aa478; 0xe8c7b756; 0x242070db; 0xc1bdceee;
   0xf57c0faf; 0x4787c62a; 0xa8304613; 0xfd469501;
   0x698098d8; 0x8b44f7af; 0xffff5bb1; 0x895cd7be;
   0x6b901122; 0xfd987193; 0xa679438e; 0x49b40821;
   0xf61e2562; 0xc040b340; 0x265e5a51; 0xe9b6c7aa;
   0xd62f105d; 0x02441453; 0xd8a1e681; 0xe7d3fbc8;
   0x21e1cde6; 0xc33707d6; 0xf4d50d87; 0x455a14ed;
   0xa9e3e905; 0xfcefa3f8; 0x676f02d9; 0x8d2a4c8a;
   0xfffa3942; 0x8771f681; 0x6d9d6122; 0xfde5380c;
   0xa4beea44; 0x4bdecfa9; 0xf6bb4b60; 0xbebfbc70;
   0x289b7ec6; 0xeaa127fa; 0xd4ef3085; 0x04881d05;
   0xd9d4d039; 0xe6db99e5; 0x1fa27cf8; 0xc4ac5665;
   0xf4292244; 0x432aff97; 0xab9423a7; 0xfc93a039;
   0x655b59c3; 0x8f0ccc92; 0xffeff47d; 0x85845dd1;
   0x6fa87e4f; 0xfe2ce6e0; 0xa3014314; 0x4e0811a1;
   0xf7537e82; 0xbd3af235; 0x2ad7d2bb; 0xeb86d391].

Definition bytes_of_string (s : string) : list Z :=
  map (fun c => Z.of_N (N_of_ascii c)) (list_ascii_of_string s).

(** The [w] low bytes of [x], least significant first. *)
Fixpoint le_bytes (w : nat) (x : Z) : list Z :=
  match w with
  | O => []
  | S w' => x mod 256 :: le_bytes w' (x / 256)
  end.

Fixpoint le_word (bs : list Z) : Z :=
  match bs with
  | [] => 0
  | b :: bs' => b + 256 * le_word bs'
  end.

Definition pad (msg : list Z) : list Z :=
  let len := Z.of_nat (length msg) in
  let zeros := Z.to_nat ((55 - len) mod 64) in
  msg ++ [128] ++ repeat 0 zeros ++ le_bytes 8 ((8 * len) mod 2 ^ 64).

Fixpoint chunks (fuel : nat) (n : nat) (bs : list Z) : list (list Z) :=
  match fuel with
  | O => []
  | S fuel' =>
      match bs with
      | [] => []
      | _ => firstn n bs :: chunks fuel' n (skipn n bs)
      end
  end.

Definition words_of_block (block : list Z) : list Z :=
  map le_word (chunks 16 4 block).

Definition round (M : list Z) (st : Z * Z * Z * Z) (i : nat) : Z * Z * Z * Z :=
  let '(A, B, C, D) := st in
  let iz := Z.of_nat i in
  let '(F, g) :=
    if iz <? 16 then (Z.lor (Z.land B C) (Z.land (not32 B) D), iz)
    else if iz <? 32 then
      (Z.lor (Z.land D B) (Z.land (not32 D) C), (5 * iz + 1) mod 16)
    else if iz <? 48 then (Z.lxor (Z.lxor B C) D, (3 * iz + 5) mod 16)
    else (Z.lxor C (Z.lor B (not32 D)), (7 * iz) mod 16) in
  let F' := add32 (add32 (add32 F A) (nth i sines 0)) (nth (Z.to_nat g) M 0) in
  (D, add32 B (rotl32 F' (nth i shifts 0)), B, C).

Definition process_block (h : Z * Z * Z * Z) (block : list Z) : Z * Z * Z * Z :=
  let '(a0, b0, c0, d0) := h in
  let '(A, B, C, D) := fold_left (round (words_of_block block)) (seq 0 64) h in
  (add32 a0 A, add32 b0 B, add32 c0 C, add32 d0 D).

Definition digest (msg : list Z) : list Z :=
  let p := pad msg in
  let '(a, b, c, d) :=
    fold_left process_block (chunks (length p) 64 p)
      (0x67452301, 0xefcdab89, 0x98badcfe, 0x10325476) in
  le_bytes 4 a ++ le_bytes 4 b ++ le_bytes 4 c ++ le_bytes 4 d.

Definition hex_digit (n : Z) : ascii :=
  nth (Z.to_nat n) (list_ascii_of_string "0123456789abcdef") "0"%char.

Definition hex_of_bytes (bs : list Z) : string :=
  string_of_list_ascii
    (flat_map (fun b => [hex_digit (b / 16); hex_digit (b mod 16)]) bs).

Definition hexdigest (s : string) : string :=
  hex_of_bytes (digest (bytes_of_string s)).

End MD5.

(** ** Data model

    The dataclasses of [bigquery_audit] are imported by usage.py; they are
    given here with the fields that usage.py reads.  A field name that two
    classes share carries a prefix ([re_] for the read event, [qe_] for
    the query event), and the query event's [start_time] and [end_time]
    are [start_time_q] and [end_time_q], the bare names being the
    configuration's. *)

(** Modelled from the spec: [BigQueryTableRef], the resource id of an
    event. *)
Record BigQueryTableRef := {
  project_id : string;
  dataset : string;
  table : string;
}.

#[global] Instance BigQueryTableRef_eq_dec : EqDecision BigQueryTableRef.
Proof. solve_decision. Defined.

(** Modelled from the spec: [ReadEvent] is a resource id, a UTC timestamp,
    an actor, the field names read, an optional read reason and an optional
    job identifier.  Datetimes are microseconds since the epoch. *)
Record ReadEvent := {
  re_timestamp : Z;
  re_actor_email : string;
  resource : BigQueryTableRef;
  fieldsRead : list string;
  readReason : option string;
  jobName : option string;
}.

(** Modelled from the spec: [QueryEvent] is a job identifier, the query
    text, a statement-type string, timestamps, an actor, an optional
    destination resource, the referenced resources, and optional billed
    bytes, default dataset and affected-row count. *)
Record QueryEvent := {
  qe_timestamp : Z;
  qe_actor_email : string;
  query : string;
  statementType : string;
  job_name : option string;
  destinationTable : option BigQueryTableRef;
  referencedTables : list BigQueryTableRef;
  start_time_q : option Z;
  end_time_q : option Z;
  billed_bytes : option Z;
  default_dataset : option string;
  numAffectedRows : option Z;
}.

(** Modelled from the spec: [AuditEvent], an event of either kind, or a
    correlated pair. *)
Record AuditEvent := {
  read_event : option ReadEvent;
  query_event : option QueryEvent;
}.

#[global] Instance ReadEvent_eq_dec : EqDecision ReadEvent.
Proof. solve_decision. Defined.
#[global] Instance QueryEvent_eq_dec : EqDecision QueryEvent.
Proof. solve_decision. Defined.
#[global] Instance AuditEvent_eq_dec : EqDecision AuditEvent.
Proof. solve_decision. Defined.

(** [event.query_event.query = key]: the event is stored with its text
    replaced by the reference. *)
Definition set_query (q : QueryEvent) (ref : string) : QueryEvent :=
  {| qe_timestamp := qe_timestamp q; qe_actor_email := qe_actor_email q;
     query := ref; statementType := statementType q; job_name := job_name q;
     destinationTable := destinationTable q;
     referencedTables := referencedTables q;
     start_time_q := start_time_q q; end_time_q := end_time_q q;
     billed_bytes := billed_bytes q; default_dataset := default_dataset q;
     numAffectedRows := numAffectedRows q |}.

(** Modelled from the spec: [OperationTypeClass], the operation category
    of an operation record. *)
Inductive OperationTypeClass :=
  | INSERT | UPDATE | DELETE | CREATE | ALTER | DROP | CUSTOM | UNKNOWN.

#[global] Instance OperationTypeClass_eq_dec : EqDecision OperationTypeClass.
Proof. solve_decision. Defined.

Definition OPERATION_STATEMENT_TYPES : gmap string OperationTypeClass :=
  list_to_map
  [ ("INSERT", INSERT);
    ("UPDATE", UPDATE);
    ("DELETE", DELETE);
    ("MERGE", UPDATE);
    ("CREATE", CREATE);
    ("CREATE_TABLE_AS_SELECT", CREATE);
    ("CREATE_EXTERNAL_TABLE", CREATE);
    ("CREATE_SNAPSHOT_TABLE", CREATE);
    ("CREATE_VIEW", CREATE);
    ("CREATE_MATERIALIZED_VIEW", CREATE);
    ("CREATE_SCHEMA", CREATE);
    ("DROP_TABLE", DROP);
    ("DROP_EXTERNAL_TABLE", DROP);
    ("DROP_SNAPSHOT_TABLE", DROP);
    ("DROP_VIEW", DROP);
    ("DROP_MATERIALIZED_VIEW", DROP);
    ("DROP_SCHEMA", DROP);
    ("ALTER_TABLE", ALTER);
    ("ALTER_VIEW", ALTER);
    ("ALTER_MATERIALIZED_VIEW", ALTER);
    ("ALTER_SCHEMA", ALTER) ].

#[global] Opaque OPERATION_STATEMENT_TYPES.

Definition READ_STATEMENT_TYPES : list string := ["SELECT"].

Record OperationalDataMeta := {
  statement_type : OperationTypeClass;
  last_updated_timestamp : Z;
  actor_email : string;
  custom_type : option string;
}.

#[global] Instance OperationalDataMeta_eq_dec : EqDecision OperationalDataMeta.
Proof. solve_decision. Defined.

(** ** Configuration and external collaborators *)

(** Modelled from the spec: the recognized configuration, the fields of
    [BigQueryV2Config] (and of its [usage] block) that the extractor
    reads. *)
Record BigQueryV2Config := {
  start_time : Z;
  end_time : Z;
  temp_table_dataset_prefix : string;
  include_top_n_queries : bool;
  top_n_queries : nat;
  include_operational_stats : bool;
  include_read_operational_stats : bool;
  env : string;
}.

(** What usage.py imports and calls but does not define. *)
Record Externals := {
  (** [TOTAL_BUDGET_FOR_QUERY_LIST] of [usage_common] *)
  MAX_QUERY_LENGTH : nat;
  (** [hashlib.md5(text.encode(STRING_ENCODING)).hexdigest()] *)
  md5_hexdigest : string -> string;
  (** [str(uuid.uuid4())], as drawn the n-th time during the run *)
  uuid4 : nat -> string;
  (** whether the n-th write to a [FileBackedDict] raises, and with which
      message *)
  io_fault : nat -> option string;
  (** [get_time_bucket(ts, config.bucket_duration)] *)
  get_time_bucket : Z -> Z;
  (** [str(table_ref)] *)
  table_str : BigQueryTableRef -> string;
  (** [table_ref.is_temporary_table(prefixes)] *)
  is_temporary_table : BigQueryTableRef -> list string -> bool;
  (** [dataset_pattern.allowed(dataset) and table_pattern.allowed(table)] *)
  pattern_allowed : BigQueryTableRef -> bool;
  (** [table_ref.to_urn(env)] *)
  to_urn : BigQueryTableRef -> string -> string;
  (** [make_user_urn(actor_email.split("@")[0])] *)
  make_user_urn : string -> string;
  (** [int(time.time() * 1000)] *)
  reported_time : Z;
}.

(** ** The event store *)

(** Modelled from the spec: [FileBackedDict] of
    [datahub.utilities.file_backed_collections] is a table of rows keyed by
    [key]; [d[k] = v] writes the row of key [k], replacing the row that has
    that key when there is one (upsert, latest write wins). *)
Fixpoint table_set {V : Type} (k : string) (v : V) (t : list (string * V))
  : list (string * V) :=
  match t with
  | [] => [(k, v)]
  | (k', v') :: t' =>
      if decide (k = k') then (k, v) :: t' else (k', v') :: table_set k v t'
  end.

(** Modelled from the spec: the row of a [FileBackedDict] with a given
    key. *)
Fixpoint table_get {V : Type} (k : string) (t : list (string * V)) : option V :=
  match t with
  | [] => None
  | (k', v') :: t' => if decide (k = k') then Some v' else table_get k t'
  end.

Record BigQueryUsageState := {
  read_events : list (string * ReadEvent);
  query_events : list (string * QueryEvent);
  column_accesses : list (string * (string * string));
  queries : gmap string string;
}.

(** [BigQueryUsageState(config)]: four empty mappings. *)
Definition new_usage_state : BigQueryUsageState :=
  {| read_events := []; query_events := []; column_accesses := [];
     queries := ∅ |}.

Definition set_read_events (k : string) (v : ReadEvent)
  (u : BigQueryUsageState) : BigQueryUsageState :=
  {| read_events := table_set k v (read_events u);
     query_events := query_events u;
     column_accesses := column_accesses u; queries := queries u |}.

Definition set_query_events (k : string) (v : QueryEvent)
  (u : BigQueryUsageState) : BigQueryUsageState :=
  {| read_events := read_events u;
     query_events := table_set k v (query_events u);
     column_accesses := column_accesses u; queries := queries u |}.

Definition set_column_accesses (k : string) (v : string * string)
  (u : BigQueryUsageState) : BigQueryUsageState :=
  {| read_events := read_events u; query_events := query_events u;
     column_accesses := table_set k v (column_accesses u);
     queries := queries u |}.

Definition set_queries (k : string) (v : string)
  (u : BigQueryUsageState) : BigQueryUsageState :=
  {| read_events := read_events u; query_events := query_events u;
     column_accesses := column_accesses u;
     queries := <[k := v]> (queries u) |}.

(** ** The report *)

(** Modelled from the spec: [BigQueryV2Report], the counters of the run
    (drops, collisions, errors per label, work units emitted) with the
    entities dropped and the warnings reported. *)
Record BigQueryV2Report := {
  num_usage_resources_dropped : nat;
  dropped : list string;
  num_usage_query_hash_collisions : nat;
  usage_error_count : gmap string nat;
  warnings : list (string * string);
  num_usage_workunits_emitted : nat;
  num_operational_stats_workunits_emitted : nat;
  num_usage_operations_dropped : nat;
  operation_types_stat : gmap string nat;
}.

Definition new_report : BigQueryV2Report :=
  {| num_usage_resources_dropped := 0; dropped := [];
     num_usage_query_hash_collisions := 0; usage_error_count := ∅;
     warnings := []; num_usage_workunits_emitted := 0;
     num_operational_stats_workunits_emitted := 0;
     num_usage_operations_dropped := 0; operation_types_stat := ∅ |}.

(** [counter[k] += 1] on a counter whose missing keys read 0. *)
Definition counter_incr (k : string) (c : gmap string nat) : gmap string nat :=
  <[k := S (default 0 (c !! k))]> c.

Definition incr_resources_dropped (r : BigQueryV2Report) : BigQueryV2Report :=
  {| num_usage_resources_dropped := S (num_usage_resources_dropped r);
     dropped := dropped r;
     num_usage_query_hash_collisions := num_usage_query_hash_collisions r;
     usage_error_count := usage_error_count r; warnings := warnings r;
     num_usage_workunits_emitted := num_usage_workunits_emitted r;
     num_operational_stats_workunits_emitted :=
       num_operational_stats_workunits_emitted r;
     num_usage_operations_dropped := num_usage_operations_dropped r;
     operation_types_stat := operation_types_stat r |}.

(** Modelled from the spec: [report.report_dropped(ent)] records the
    dropped entity. *)
Definition report_dropped (ent : string) (r : BigQueryV2Report)
  : BigQueryV2Report :=
  {| num_usage_resources_dropped := num_usage_resources_dropped r;
     dropped := dropped r ++ [ent];
     num_usage_query_hash_collisions := num_usage_query_hash_collisions r;
     usage_error_count := usage_error_count r; warnings := warnings r;
     num_usage_workunits_emitted := num_usage_workunits_emitted r;
     num_operational_stats_workunits_emitted :=
       num_operational_stats_workunits_emitted r;
     num_usage_operations_dropped := num_usage_operations_dropped r;
     operation_types_stat := operation_types_stat r |}.

Definition incr_query_hash_collisions (r : BigQueryV2Report)
  : BigQueryV2Report :=
  {| num_usage_resources_dropped := num_usage_resources_dropped r;
     dropped := dropped r;
     num_usage_query_hash_collisions := S (num_usage_query_hash_collisions r);
     usage_error_count := usage_error_count r; warnings := warnings r;
     num_usage_workunits_emitted := num_usage_workunits_emitted r;
     num_operational_stats_workunits_emitted :=
       num_operational_stats_workunits_emitted r;
     num_usage_operations_dropped := num_usage_operations_dropped r;
     operation_types_stat := operation_types_stat r |}.

Definition incr_usage_error_count (label : string) (r : BigQueryV2Report)
  : BigQueryV2Report :=
  {| num_usage_resources_dropped := num_usage_resources_dropped r;
     dropped := dropped r;
     num_usage_query_hash_collisions := num_usage_query_hash_collisions r;
     usage_error_count := counter_incr label (usage_error_count r);
     warnings := warnings r;
     num_usage_workunits_emitted := num_usage_workunits_emitted r;
     num_operational_stats_workunits_emitted :=
       num_operational_stats_workunits_emitted r;
     num_usage_operations_dropped := num_usage_operations_dropped r;
     operation_types_stat := operation_types_stat r |}.

(** Modelled from the spec: [report.report_warning(key, reason)] records
    the warning. *)
Definition report_warning (key reason : string) (r : BigQueryV2Report)
  : BigQueryV2Report :=
  {| num_usage_resources_dropped := num_usage_resources_dropped r;
     dropped := dropped r;
     num_usage_query_hash_collisions := num_usage_query_hash_collisions r;
     usage_error_count := usage_error_count r;
     warnings := warnings r ++ [(key, reason)];
     num_usage_workunits_emitted := num_usage_workunits_emitted r;
     num_operational_stats_workunits_emitted :=
       num_operational_stats_workunits_emitted r;
     num_usage_operations_dropped := num_usage_operations_dropped r;
     operation_types_stat := operation_types_stat r |}.

Definition incr_usage_workunits_emitted (r : BigQueryV2Report)
  : BigQueryV2Report :=
  {| num_usage_resources_dropped := num_usage_resources_dropped r;
     dropped := dropped r;
     num_usage_query_hash_collisions := num_usage_query_hash_collisions r;
     usage_error_count := usage_error_count r; warnings := warnings r;
     num_usage_workunits_emitted := S (num_usage_workunits_emitted r);
     num_operational_stats_workunits_emitted :=
       num_operational_stats_workunits_emitted r;
     num_usage_operations_dropped := num_usage_operations_dropped r;
     operation_types_stat := operation_types_stat r |}.

Definition incr_operational_stats_workunits_emitted (r : BigQueryV2Report)
  : BigQueryV2Report :=
  {| num_usage_resources_dropped := num_usage_resources_dropped r;
     dropped := dropped r;
     num_usage_query_hash_collisions := num_usage_query_hash_collisions r;
     usage_error_count := usage_error_count r; warnings := warnings r;
     num_usage_workunits_emitted := num_usage_workunits_emitted r;
     num_operational_stats_workunits_emitted :=
       S (num_operational_stats_workunits_emitted r);
     num_usage_operations_dropped := num_usage_operations_dropped r;
     operation_types_stat := operation_types_stat r |}.

Definition incr_usage_operations_dropped (r : BigQueryV2Report)
  : BigQueryV2Report :=
  {| num_usage_resources_dropped := num_usage_resources_dropped r;
     dropped := dropped r;
     num_usage_query_hash_collisions := num_usage_query_hash_collisions r;
     usage_error_count := usage_error_count r; warnings := warnings r;
     num_usage_workunits_emitted := num_usage_workunits_emitted r;
     num_operational_stats_workunits_emitted :=
       num_operational_stats_workunits_emitted r;
     num_usage_operations_dropped := S (num_usage_operations_dropped r);
     operation_types_stat := operation_types_stat r |}.

Definition incr_operation_types_stat (ty : string) (r : BigQueryV2Report)
  : BigQueryV2Report :=
  {| num_usage_resources_dropped := num_usage_resources_dropped r;
     dropped := dropped r;
     num_usage_query_hash_collisions := num_usage_query_hash_collisions r;
     usage_error_count := usage_error_count r; warnings := warnings r;
     num_usage_workunits_emitted := num_usage_workunits_emitted r;
     num_operational_stats_workunits_emitted :=
       num_operational_stats_workunits_emitted r;
     num_usage_operations_dropped := num_usage_operations_dropped r;
     operation_types_stat := counter_incr ty (operation_types_stat r) |}.

(** ** Work units *)

(** Modelled from the spec: [OperationClass], the operation record, with
    the fields usage.py fills in. *)
Record OperationClass := {
  timestampMillis : Z;
  lastUpdatedTimestamp : Z;
  actor : string;
  operationType : OperationTypeClass;
  customOperationType : option string;
  affectedDatasets : list string;
  customProperties : option (list (string * string));
  op_numAffectedRows : option Z;
}.

(** Modelled from the spec: [make_usage_workunit] of [usage_common] is the
    downstream emitter; the usage record it is handed is kept as it is
    handed over: bucket, resource, query_count and the three frequency
    lists of (value, count) pairs. *)
Record UsageRecord := {
  bucket_start_time : Z;
  ur_resource : string;
  query_count : nat;
  query_freq : list (string * nat);
  user_freq : list (string * nat);
  column_freq : list (string * nat);
  ur_top_n_queries : nat;
}.

Inductive MetadataWorkUnit :=
  | OperationWorkUnit (entityUrn : string) (aspect : OperationClass)
  | UsageWorkUnit (record : UsageRecord).

(** ** The extractor's state and its monad *)

(** [usage_state] is the [BigQueryUsageState] of the run, [uuid_to_query]
    and [report] the extractor's attributes; the two counters index the
    draws of [uuid4] and the writes seen by [io_fault]; [yielded] is what
    the generators have yielded so far, in order. *)
Record Extractor := {
  usage_state : BigQueryUsageState;
  uuid_to_query : gmap string string;
  report : BigQueryV2Report;
  uuids_drawn : nat;
  store_writes : nat;
  yielded : list MetadataWorkUnit;
}.

Definition new_extractor : Extractor :=
  {| usage_state := new_usage_state; uuid_to_query := ∅;
     report := new_report; uuids_drawn := 0; store_writes := 0;
     yielded := [] |}.

Inductive Exception :=
  | KeyError (key : string)
  | StoreWriteError (message : string).

(** [str(e)] *)
Definition str_exception (e : Exception) : string :=
  match e with
  | KeyError key => "'" +:+ key +:+ "'"
  | StoreWriteError message => message
  end.

Inductive Outcome (A : Type) :=
  | Returned (a : A)
  | Raised (e : Exception).
Arguments Returned {A} a.
Arguments Raised {A} e.

Definition M (A : Type) : Type := Extractor -> Outcome A * Extractor.

Definition ret {A : Type} (a : A) : M A := fun s => (Returned a, s).

Definition bind {A B : Type} (m : M A) (f : A -> M B) : M B :=
  fun s =>
    match m s with
    | (Returned a, s') => f a s'
    | (Raised e, s') => (Raised e, s')
    end.

Definition raise {A : Type} (e : Exception) : M A := fun s => (Raised e, s).

(** [try: m  except Exception as e: h(e)] *)
Definition try_except {A : Type} (m : M A) (h : Exception -> M A) : M A :=
  fun s =>
    match m s with
    | (Returned a, s') => (Returned a, s')
    | (Raised e, s') => h e s'
    end.

Notation "'do' x <- m ; k" := (bind m (fun x => k))
  (at level 10, x name, m at level 100, k at level 200).
Notation "'run' m ; k" := (bind m (fun _ => k))
  (at level 10, m at level 100, k at level 200).

Definition update_report (f : BigQueryV2Report -> BigQueryV2Report) : M unit :=
  fun s =>
    (Returned tt,
     {| usage_state := usage_state s; uuid_to_query := uuid_to_query s;
        report := f (report s); uuids_drawn := uuids_drawn s;
        store_writes := store_writes s; yielded := yielded s |}).

Definition set_uuid_to_query (k v : string) : M unit :=
  fun s =>
    (Returned tt,
     {| usage_state := usage_state s;
        uuid_to_query := <[k := v]> (uuid_to_query s);
        report := report s; uuids_drawn := uuids_drawn s;
        store_writes := store_writes s; yielded := yielded s |}).

(** [yield wu] *)
Definition yield (wu : MetadataWorkUnit) : M unit :=
  fun s =>
    (Returned tt,
     {| usage_state := usage_state s; uuid_to_query := uuid_to_query s;
        report := report s; uuids_drawn := uuids_drawn s;
        store_writes := store_writes s; yielded := yielded s ++ [wu] |}).

(** [with BigQueryUsageState(self.config) as usage_state] *)
Definition open_usage_state : M unit :=
  fun s =>
    (Returned tt,
     {| usage_state := new_usage_state; uuid_to_query := uuid_to_query s;
        report := report s; uuids_drawn := uuids_drawn s;
        store_writes := store_writes s; yielded := yielded s |}).

Fixpoint for_each {A : Type} (body : A -> M unit) (l : list A) : M unit :=
  match l with
  | [] => ret tt
  | a :: l' => run body a; for_each body l'
  end.

Section Usage.
Context (config : BigQueryV2Config) (X : Externals).

(** [str(uuid.uuid4())] *)
Definition new_uuid : M string :=
  fun s =>
    (Returned (uuid4 X (uuids_drawn s)),
     {| usage_state := usage_state s; uuid_to_query := uuid_to_query s;
        report := report s; uuids_drawn := S (uuids_drawn s);
        store_writes := store_writes s; yielded := yielded s |}).

(** A write [d[k] = v] to one of the [FileBackedDict]s of the usage state:
    it raises, leaving the mapping as it was, when [io_fault] says so. *)
Definition store_write (w : BigQueryUsageState -> BigQueryUsageState)
  : M unit :=
  fun s =>
    let n := store_writes s in
    match io_fault X n with
    | Some message =>
        (Raised (StoreWriteError message),
         {| usage_state := usage_state s; uuid_to_query := uuid_to_query s;
            report := report s; uuids_drawn := uuids_drawn s;
            store_writes := S n; yielded := yielded s |})
    | None =>
        (Returned tt,
         {| usage_state := w (usage_state s);
            uuid_to_query := uuid_to_query s;
            report := report s; uuids_drawn := uuids_drawn s;
            store_writes := S n; yielded := yielded s |})
    end.

(** [text[:n]] *)
Definition str_prefix (n : nat) (text : string) : string :=
  String.substring 0 n text.

(** A [str] or an [Optional[str]] as a condition. *)
Definition truthy (o : option string) : bool :=
  match o with
  | Some s => negb (bool_decide (s = ""))
  | None => false
  end.

(** [_report_error(label, e)] (no [group]) *)
Definition _report_error (label : string) (e : Exception) : M unit :=
  run update_report (incr_usage_error_count label);
  update_report (report_warning ("usage-" +:+ label) (str_exception e)).

(** The first branch of [_store_usage_event]: a read event inside the
    time window. *)
Definition store_read_event (r : ReadEvent) (table_refs : list string)
  : M bool :=
  let res := resource r in
  if negb (bool_decide (table_str X res ∈ table_refs)) then
    run update_report incr_resources_dropped;
    run update_report (report_dropped (table_str X res));
    ret false
  else if is_temporary_table X res [temp_table_dataset_prefix config] then
    run update_report (report_dropped (table_str X res));
    ret false
  else
    do key <- new_uuid;
    run store_write (set_read_events key r);
    run for_each
      (fun field_read =>
         do k <- new_uuid;
         store_write (set_column_accesses k (key, field_read)))
      (fieldsRead r);
    ret true.

(** [usage_state.queries.get(query_hash, query)] *)
Definition queries_get (query_hash fallback : string) : M string :=
  fun s =>
    (Returned (default fallback (queries (usage_state s) !! query_hash)), s).

(** The second branch: a query event with a job name. *)
Definition store_query_event (q : QueryEvent) (name : string) : M bool :=
  let text := str_prefix (MAX_QUERY_LENGTH X) (query q) in
  let query_hash := md5_hexdigest X text in
  do stored <- queries_get query_hash text;
  do ref <-
     (if negb (bool_decide (stored = text)) then
        do key <- new_uuid;
        run set_uuid_to_query key text;
        run update_report incr_query_hash_collisions;
        ret key
      else
        run store_write (set_queries query_hash text);
        ret query_hash);
  run store_write (set_query_events name (set_query q ref));
  ret true.

Definition in_window (r : ReadEvent) : bool :=
  (start_time config <=? re_timestamp r)%Z && (re_timestamp r <? end_time config)%Z.

Definition _store_usage_event (event : AuditEvent) (table_refs : list string)
  : M bool :=
  let otherwise : M bool :=
    match query_event event with
    | Some q =>
        if truthy (job_name q)
        then store_query_event q (default "" (job_name q))
        else ret false
    | None => ret false
    end in
  match read_event event with
  | Some r => if in_window r then store_read_event r table_refs else otherwise
  | None => otherwise
  end.

(** [_ingest_events]: the loop, a failed event caught and counted. *)
Fixpoint _ingest_events (events : list AuditEvent) (table_refs : list string)
  : M unit :=
  match events with
  | [] => ret tt
  | audit_event :: events' =>
      run try_except
        (do stored <- _store_usage_event audit_event table_refs; ret tt)
        (fun e => _report_error "store-event" e);
      _ingest_events events' table_refs
  end.

(** ** Relational operators, for the SQL of the usage state

    A table is the list of its rows; a query is evaluated the way SQLite
    evaluates it: joins, then GROUP BY with its aggregates, then the window
    functions over the grouped rows, then ORDER BY. *)

Definition inner_join {A B : Type} (on : A -> B -> bool)
  (l : list A) (r : list B) : list (A * B) :=
  flat_map (fun a => map (pair a) (List.filter (on a) r)) l.

Definition left_join {A B : Type} (on : A -> B -> bool)
  (l : list A) (r : list B) : list (A * option B) :=
  flat_map
    (fun a =>
       match List.filter (on a) r with
       | [] => [(a, None)]
       | matches => map (fun b => (a, Some b)) matches
       end) l.

Fixpoint add_to_group {A K : Type} `{EqDecision K} (k : K) (a : A)
  (groups : list (K * list A)) : list (K * list A) :=
  match groups with
  | [] => [(k, [a])]
  | (k', rows) :: groups' =>
      if decide (k = k') then (k', rows ++ [a]) :: groups'
      else (k', rows) :: add_to_group k a groups'
  end.

(** GROUP BY: the groups in order of first appearance, each with its rows
    in the order they came. *)
Definition group_by {A K : Type} `{EqDecision K} (key : A -> K)
  (rows : list A) : list (K * list A) :=
  fold_left (fun groups a => add_to_group (key a) a groups) rows [].

Fixpoint insert_sorted {A : Type} (le : A -> A -> bool) (x : A)
  (l : list A) : list A :=
  match l with
  | [] => [x]
  | y :: l' => if le x y then x :: l else y :: insert_sorted le x l'
  end.

(** ORDER BY, rows with equal sort keys staying in the order they came. *)
Definition order_by {A : Type} (le : A -> A -> bool) (rows : list A) : list A :=
  fold_right (insert_sorted le) [] rows.

(** ROW_NUMBER() OVER (PARTITION BY part ORDER BY le): every row with its
    position, from 1, among the rows of its partition sorted by [le]. *)
Definition row_number {A K : Type} `{EqDecision K} (part : A -> K)
  (le : A -> A -> bool) (rows : list A) : list (A * nat) :=
  flat_map
    (fun g => combine (order_by le g.2) (seq 1 (length g.2)))
    (group_by part rows).

Definition then_by (c1 c2 : comparison) : comparison :=
  match c1 with
  | Eq => c2
  | _ => c1
  end.

Definition not_after (c : comparison) : bool :=
  match c with
  | Gt => false
  | _ => true
  end.

(** Sort keys [bucket, resource, count DESC, value]. *)
Definition freq_order (x y : Z * string * string * nat) : bool :=
  let '(t1, r1, v1, c1) := x in
  let '(t2, r2, v2, c2) := y in
  not_after
    (then_by (Z.compare t1 t2)
       (then_by (String.compare r1 r2)
          (then_by (Nat.compare c2 c1) (String.compare v1 v2)))).

(** Sort keys [count DESC, value]. *)
Definition count_desc_order (x y : Z * string * string * nat) : bool :=
  let '(_, _, v1, c1) := x in
  let '(_, _, v2, c2) := y in
  not_after (then_by (Nat.compare c2 c1) (String.compare v1 v2)).

Definition bucket_order {A : Type} (key : A -> Z * string) (x y : A) : bool :=
  not_after
    (then_by (Z.compare (key x).1 (key y).1)
       (String.compare (key x).2 (key y).2)).

(** ** [BigQueryUsageState]: the extra columns and the queries *)

Definition r_resource (r : string * ReadEvent) : string :=
  table_str X (resource r.2).
Definition r_name (r : string * ReadEvent) : option string := jobName r.2.
Definition r_timestamp (r : string * ReadEvent) : Z :=
  get_time_bucket X (re_timestamp r.2).
Definition r_user (r : string * ReadEvent) : string := re_actor_email r.2.
Definition q_query (q : string * QueryEvent) : string := query q.2.
Definition q_is_read (q : string * QueryEvent) : bool :=
  bool_decide (statementType q.2 ∈ READ_STATEMENT_TYPES).
Definition c_read_event (c : string * (string * string)) : string := c.2.1.
Definition c_field (c : string * (string * string)) : string := c.2.2.

(** [ON r.name = q.key]; a NULL name matches nothing. *)
Definition on_job (r : string * ReadEvent) (q : string * QueryEvent) : bool :=
  bool_decide (r_name r = Some q.1).

(** [standalone_events]: the LEFT JOIN of the reads with the queries, then
    the snapshot of the query events that satisfy [NOT is_read]. *)
Definition standalone_events (u : BigQueryUsageState) : list AuditEvent :=
  map (fun row : (string * ReadEvent) * option (string * QueryEvent) =>
         {| read_event := Some row.1.2;
            query_event := (fun q : string * QueryEvent => q.2) <$> row.2 |})
      (left_join on_job (read_events u) (query_events u))
  ++
  map (fun q : string * QueryEvent =>
         {| read_event := None; query_event := Some q.2 |})
      (List.filter (fun q => negb (q_is_read q)) (query_events u)).

Record UsageStatistic := {
  us_timestamp : Z;
  us_resource : string;
  us_query_count : nat;
  us_query_freq : list (string * nat);
  us_user_freq : list (string * nat);
  us_column_freq : list (string * nat);
}.

Definition joined_reads (u : BigQueryUsageState)
  : list ((string * ReadEvent) * (string * QueryEvent)) :=
  inner_join on_job (read_events u) (query_events u).

(** Subquery [a]: the joined rows per (timestamp, resource), counted. *)
Definition subquery_a (u : BigQueryUsageState) : list (Z * string * nat) :=
  map (fun g : (Z * string) * list _ => (g.1, length g.2))
      (group_by (fun j : (string * ReadEvent) * (string * QueryEvent) =>
                   (r_timestamp j.1, r_resource j.1))
                (joined_reads u)).

(** A frequency column: [json_group_array(json_array(value, count))] per
    (timestamp, resource), the rows taken in the order they arrive. *)
Definition freq_groups (rows : list (Z * string * string * nat))
  : list ((Z * string) * list (string * nat)) :=
  map (fun g : (Z * string) * list (Z * string * string * nat) =>
         (g.1, map (fun row : Z * string * string * nat => (row.1.2, row.2)) g.2))
      (group_by (fun row : Z * string * string * nat => (row.1.1.1, row.1.1.2))
                rows).

(** The rows [timestamp, resource, value, COUNT] of a GROUP BY on
    (timestamp, resource, value). *)
Definition counted {A : Type} (key : A -> Z * string * string)
  (rows : list A) : list (Z * string * string * nat) :=
  map (fun g : (Z * string * string) * list A => (g.1, length g.2))
      (group_by key rows).

(** Subquery [b]: the query frequencies.  The window is partitioned by
    [r.timestamp, r.resource, q.query], as the SQL text has it. *)
Definition subquery_b (top_n : nat) (u : BigQueryUsageState)
  : list ((Z * string) * list (string * nat)) :=
  let grouped :=
    counted (fun j : (string * ReadEvent) * (string * QueryEvent) =>
               (r_timestamp j.1, r_resource j.1, q_query j.2))
            (joined_reads u) in
  let ranked :=
    row_number (fun row : Z * string * string * nat => row.1)
               count_desc_order grouped in
  let ordered :=
    order_by (fun x y : (Z * string * string * nat) * nat =>
                freq_order x.1 y.1) ranked in
  freq_groups
    (map fst
       (List.filter (fun row : (Z * string * string * nat) * nat =>
                       (row.2 <=? top_n)%nat) ordered)).

(** Subquery [c]: the user frequencies, over all the reads. *)
Definition subquery_c (u : BigQueryUsageState)
  : list ((Z * string) * list (string * nat)) :=
  freq_groups
    (order_by freq_order
       (counted (fun r : string * ReadEvent =>
                   (r_timestamp r, r_resource r, r_user r))
                (read_events u))).

(** Subquery [d]: the column frequencies. *)
Definition subquery_d (u : BigQueryUsageState)
  : list ((Z * string) * list (string * nat)) :=
  freq_groups
    (order_by freq_order
       (counted (fun j : (string * ReadEvent) * (string * (string * string)) =>
                   (r_timestamp j.1, r_resource j.1, c_field j.2))
                (inner_join
                   (fun (r : string * ReadEvent) c =>
                      bool_decide (r.1 = c_read_event c))
                   (read_events u) (column_accesses u)))).

Definition on_bucket {A B : Type} (ka : A -> Z * string)
  (x : A) (y : (Z * string) * B) : bool :=
  bool_decide (ka x = y.1).

(** [json.loads(row[col] or "[]")] *)
Definition freq_or_empty (o : option ((Z * string) * list (string * nat)))
  : list (string * nat) :=
  match o with
  | Some g => g.2
  | None => []
  end.

(** [usage_statistics(top_n)]: the rows of [usage_statistics_query(top_n)]. *)
Definition usage_statistics (top_n : nat) (u : BigQueryUsageState)
  : list UsageStatistic :=
  let ab :=
    left_join (on_bucket (fun a : Z * string * nat => a.1))
      (subquery_a u) (subquery_b top_n u) in
  let abc :=
    left_join (on_bucket (fun x : (Z * string * nat) * _ => x.1.1))
      ab (subquery_c u) in
  let abcd :=
    left_join (on_bucket (fun x : ((Z * string * nat) * _) * _ => x.1.1.1))
      abc (subquery_d u) in
  map (fun row : (((Z * string * nat) * _) * _) * _ =>
         {| us_timestamp := row.1.1.1.1.1;
            us_resource := row.1.1.1.1.2;
            us_query_count := row.1.1.1.2;
            us_query_freq := freq_or_empty row.1.1.2;
            us_user_freq := freq_or_empty row.1.2;
            us_column_freq := freq_or_empty row.2 |})
      (order_by
         (bucket_order (fun x : (((Z * string * nat) * _) * _) * _ => x.1.1.1.1))
         abcd).

(** ** Emission of the usage records *)

(** [usage_state.queries[query_hash]] *)
Definition queries_getitem (query_hash : string) : M string :=
  fun s =>
    match queries (usage_state s) !! query_hash with
    | Some text => (Returned text, s)
    | None => (Raised (KeyError query_hash), s)
    end.

(** [self.uuid_to_query.get(query_hash, usage_state.queries[query_hash])]:
    the default is an argument of [get], evaluated before the call. *)
Definition resolve_query (query_hash : string) : M string :=
  do fallback <- queries_getitem query_hash;
  fun s => (Returned (default fallback (uuid_to_query s !! query_hash)), s).

(** The list comprehension over [entry.query_freq]. *)
Fixpoint resolve_query_freq (freq : list (string * nat))
  : M (list (string * nat)) :=
  match freq with
  | [] => ret []
  | (query_hash, count) :: freq' =>
      do text <- resolve_query query_hash;
      do rest <- resolve_query_freq freq';
      ret ((text, count) :: rest)
  end.

Definition emit_usage_entry (entry : UsageStatistic) : M unit :=
  try_except
    (do resolved <- resolve_query_freq (us_query_freq entry);
     run yield
       (UsageWorkUnit
          {| bucket_start_time := us_timestamp entry;
             ur_resource := us_resource entry;
             query_count := us_query_count entry;
             query_freq := resolved;
             user_freq := us_user_freq entry;
             column_freq := us_column_freq entry;
             ur_top_n_queries := top_n_queries config |});
     update_report incr_usage_workunits_emitted)
    (fun e => _report_error "statistics-workunit" e).

Definition _generate_usage_workunits : M unit :=
  let top_n :=
    if include_top_n_queries config then top_n_queries config else 0 in
  fun s =>
    for_each emit_usage_entry (usage_statistics top_n (usage_state s)) s.

(** ** The operational deriver *)

Definition _is_table_allowed (table_ref : option BigQueryTableRef) : bool :=
  match table_ref with
  | Some t => pattern_allowed X t
  | None => false
  end.

(** The first test is [not event.read_event and event.query_event and
    event.query_event.destinationTable], the second [event.read_event]. *)
Definition _get_destination_table (event : AuditEvent)
  : option BigQueryTableRef :=
  match read_event event with
  | None =>
      match query_event event with
      | Some q =>
          match destinationTable q with
          | Some dest => Some dest
          | None => None
          end
      | None => None
      end
  | Some r => Some (resource r)
  end.

(** [int(dt.timestamp() * 1000)] *)
Definition millis (dt : Z) : Z := Z.quot dt 1000.

Definition _extract_operational_meta (event : AuditEvent)
  : M (option OperationalDataMeta) :=
  match query_event event with
  | None =>
      match read_event event with
      | Some r =>
          ret (Some {| statement_type := CUSTOM;
                       custom_type := Some "CUSTOM_READ";
                       last_updated_timestamp := millis (re_timestamp r);
                       actor_email := re_actor_email r |})
      | None => ret None
      end
  | Some q =>
      let classified :=
        match OPERATION_STATEMENT_TYPES !! statementType q with
        | Some op =>
            match read_event event with
            | None => (op, None)
            | Some _ => (CUSTOM, Some (statementType q))
            end
        | None => (CUSTOM, Some (statementType q))
        end in
      run update_report (incr_operation_types_stat (statementType q));
      ret (Some {| statement_type := classified.1;
                   custom_type := classified.2;
                   last_updated_timestamp := millis (qe_timestamp q);
                   actor_email := qe_actor_email q |})
  end.

(** [str(n)] for an int. *)
Definition str_int (n : Z) : string :=
  DecimalString.NilZero.string_of_int (Z.to_int n).

(** [z] as a condition: an int that is present and not 0. *)
Definition truthy_int (o : option Z) : bool :=
  match o with
  | Some z => negb (z =? 0)%Z
  | None => false
  end.

Definition _create_operational_custom_properties (event : AuditEvent)
  : list (string * string) :=
  if include_read_operational_stats config then
    match query_event event with
    | Some q =>
        match end_time_q q, start_time_q q with
        | Some e, Some b =>
            [("millisecondsTaken", str_int (millis e - millis b))]
        | _, _ => []
        end
        ++ (if truthy (job_name q)
            then [("sessionId", default "" (job_name q))] else [])
        ++ [("text", query q)]
        ++ (if truthy_int (billed_bytes q)
            then [("bytesProcessed", str_int (default 0%Z (billed_bytes q)))]
            else [])
        ++ (if truthy (default_dataset q)
            then [("defaultDatabase", default "" (default_dataset q))]
            else [])
    | None => []
    end
    ++
    match read_event event with
    | Some r =>
        (if truthy (readReason r)
         then [("readReason", default "" (readReason r))] else [])
        ++ match fieldsRead r with
           | [] => []
           | fields => [("fieldsRead", String.concat "," fields)]
           end
    | None => []
    end
  else [].

(** [actor_email.split("@")[0]] *)
Fixpoint before_at (s : string) : string :=
  match s with
  | EmptyString => EmptyString
  | String c s' => if Ascii.eqb c "@" then EmptyString else String c (before_at s')
  end.

(** [op in OPERATION_STATEMENT_TYPES.values()] *)
Definition is_write_type (op : OperationTypeClass) : bool :=
  bool_decide (op ∈ (map_to_list OPERATION_STATEMENT_TYPES).*2).

Definition _create_operation_workunit (event : AuditEvent)
  (table_refs : list string) : M (option MetadataWorkUnit) :=
  if bool_decide (read_event event = None)
     && bool_decide (query_event event = None)
  then ret None
  else
      match _get_destination_table event with
      | None => ret None
      | Some destination_table =>
          if negb (_is_table_allowed (Some destination_table))
             || negb (bool_decide (table_str X destination_table ∈ table_refs))
          then
            run update_report incr_usage_operations_dropped;
            ret None
          else
            do meta <- _extract_operational_meta event;
            match meta with
            | None => ret None
            | Some operational_meta =>
                if negb (include_read_operational_stats config)
                   && negb (is_write_type (statement_type operational_meta))
                then ret None
                else
                  let affected_datasets :=
                    match query_event event with
                    | Some q =>
                        map (fun t => to_urn X t (env config))
                            (referencedTables q)
                    | None => []
                    end in
                  let with_stats := include_read_operational_stats config in
                  ret (Some
                    (OperationWorkUnit
                       (to_urn X destination_table (env config))
                       {| timestampMillis := reported_time X;
                          lastUpdatedTimestamp :=
                            last_updated_timestamp operational_meta;
                          actor :=
                            make_user_urn X
                              (before_at (actor_email operational_meta));
                          operationType := statement_type operational_meta;
                          customOperationType := custom_type operational_meta;
                          affectedDatasets := affected_datasets;
                          customProperties :=
                            if with_stats
                            then Some (_create_operational_custom_properties event)
                            else None;
                          op_numAffectedRows :=
                            if with_stats then
                              match query_event event with
                              | Some q =>
                                  if truthy_int (numAffectedRows q)
                                  then numAffectedRows q else None
                              | None => None
                              end
                            else None |}))
            end
      end.

Definition operational_step (table_refs : list string)
  (audit_event : AuditEvent) : M unit :=
  try_except
    (do operational_wu <- _create_operation_workunit audit_event table_refs;
     match operational_wu with
     | Some wu =>
         run yield wu;
         update_report incr_operational_stats_workunits_emitted
     | None => ret tt
     end)
    (fun e => _report_error "operation-workunit" e).

Definition _generate_operational_workunits (table_refs : list string)
  : M unit :=
  fun s =>
    for_each (operational_step table_refs)
      (standalone_events (usage_state s)) s.

(** [_run]; [create_indexes] and [report_disk_usage] touch nothing that is
    modelled here. *)
Definition _run (events : list AuditEvent) (table_refs : list string)
  : M unit :=
  try_except
    (run open_usage_state;
     run _ingest_events events table_refs;
     run (if include_operational_stats config
          then _generate_operational_workunits table_refs
          else ret tt);
     _generate_usage_workunits)
    (fun e => update_report (report_warning "usage-ingestion" (str_exception e))).

End Usage.

(** ** A concrete environment

    Real MD5, a one-hour ingestion window cut into hourly buckets, a supply
    of version-4 UUIDs, a store whose writes all succeed. *)

Definition hour : Z := 3600000000.

Definition sample_config : BigQueryV2Config :=
  {| start_time := 0; end_time := hour;
     temp_table_dataset_prefix := "_";
     include_top_n_queries := true; top_n_queries := 2;
     include_operational_stats := true;
     include_read_operational_stats := true;
     env := "PROD" |}.

Definition sample_uuid4 (n : nat) : string :=
  "00000000-0000-4000-8000-0000" +:+ MD5.hex_of_bytes (MD5.le_bytes 4 (Z.of_nat n)).

Definition sample_table_str (t : BigQueryTableRef) : string :=
  "projects/" +:+ project_id t +:+ "/datasets/" +:+ dataset t
  +:+ "/tables/" +:+ table t.

Definition sample_externals : Externals :=
  {| MAX_QUERY_LENGTH := 24 * 1000;
     md5_hexdigest := MD5.hexdigest;
     uuid4 := sample_uuid4;
     io_fault := fun _ => None;
     get_time_bucket := fun t => (t - t mod hour)%Z;
     table_str := sample_table_str;
     is_temporary_table :=
       fun t prefixes =>
         bool_decide (Exists (fun p => String.prefix p (dataset t) = true) prefixes);
     pattern_allowed := fun _ => true;
     to_urn := fun t env => "urn:li:dataset:(" +:+ sample_table_str t +:+ "," +:+ env +:+ ")";
     make_user_urn := fun user => "urn:li:corpuser:" +:+ user;
     reported_time := 0 |}.

Definition t1 : BigQueryTableRef :=
  {| project_id := "proj"; dataset := "ds"; table := "t1" |}.
Definition t2 : BigQueryTableRef :=
  {| project_id := "proj"; dataset := "ds"; table := "t2" |}.

Definition a_read (job : string) (at_ : Z) (res : BigQueryTableRef) : AuditEvent :=
  {| read_event :=
       Some {| re_timestamp := at_; re_actor_email := "a@x.com";
               resource := res; fieldsRead := ["c1"];
               readReason := Some "JOB"; jobName := Some job |};
     query_event := None |}.

Definition a_query (job text type : string) : AuditEvent :=
  {| read_event := None;
     query_event :=
       Some {| qe_timestamp := 5; qe_actor_email := "a@x.com";
               query := text; statementType := type; job_name := Some job;
               destinationTable := None; referencedTables := [];
               start_time_q := None; end_time_q := None;
               billed_bytes := None; default_dataset := None;
               numAffectedRows := None |} |}.

Definition topn_events : list AuditEvent :=
  [ a_query "job1" "SELECT 1" "SELECT";
    a_query "job2" "SELECT 2" "SELECT";
    a_query "job3" "SELECT 3" "SELECT" ]
  ++ repeat (a_read "job1" 10 t1) 5
  ++ repeat (a_read "job2" 10 t1) 5
  ++ repeat (a_read "job3" 10 t1) 3.


(** A store whose first write fails. *)
Definition faulty_externals : Externals :=
  {| MAX_QUERY_LENGTH := MAX_QUERY_LENGTH sample_externals;
     md5_hexdigest := md5_hexdigest sample_externals;
     uuid4 := uuid4 sample_externals;
     io_fault := fun n => if (n =? 0)%nat then Some "disk I/O error" else None;
     get_time_bucket := get_time_bucket sample_externals;
     table_str := table_str sample_externals;
     is_temporary_table := is_temporary_table sample_externals;
     pattern_allowed := pattern_allowed sample_externals;
     to_urn := to_urn sample_externals;
     make_user_urn := make_user_urn sample_externals;
     reported_time := reported_time sample_externals |}.

Definition two_reads : list AuditEvent :=
  [a_read "job1" 10 t1; a_read "job2" 20 t1].

(** A state in which a stored query event refers to a text that neither
    [queries] nor [uuid_to_query] holds. *)
Definition dangling_state : Extractor :=
  {| usage_state :=
       {| read_events :=
            [("00000000-0000-4000-8000-000000000000",
              {| re_timestamp := 10; re_actor_email := "a@x.com";
                 resource := t1; fieldsRead := [];
                 readReason := None; jobName := Some "job1" |})];
          query_events :=
            [("job1",
              {| qe_timestamp := 5; qe_actor_email := "a@x.com";
                 query := "d41d8cd98f00b204e9800998ecf8427f";
                 statementType := "SELECT"; job_name := Some "job1";
                 destinationTable := None; referencedTables := [];
                 start_time_q := None; end_time_q := None;
                 billed_bytes := None; default_dataset := None;
                 numAffectedRows := None |})];
          column_accesses := [];
          queries := ∅ |};
     uuid_to_query := ∅; report := new_report;
     uuids_drawn := 1; store_writes := 2; yielded := [] |}.

(** Two texts with the same MD5 digest. *)
Definition text_a : string :=
  "TEXTCOLLBYfGiJUETHQ4hAcKSMd5zYpgqf1YRDhkmxHkhPWptrkoyz28wnI9V0aHeAuaKnak".
Definition text_b : string :=
  "TEXTCOLLBYfGiJUETHQ4hEcKSMd5zYpgqf1YRDhkmxHkhPWptrkoyz28wnI9V0aHeAuaKnak".

Definition colliding_events : list AuditEvent :=
  [ a_query "job1" text_a "SELECT";
    a_query "job2" text_b "SELECT";
    a_read "job1" 10 t1;
    a_read "job2" 20 t2 ].

(** The usage records among the work units. *)
Definition usage_records (wus : list MetadataWorkUnit) : list UsageRecord :=
  flat_map
    (fun wu =>
       match wu with
       | UsageWorkUnit record => [record]
       | OperationWorkUnit _ _ => []
       end) wus.






(** The end-to-end example: one read of 2023-01-01T10:15:00Z and the query
    of its job, hourly buckets, a window of that day. *)
Definition day_config : BigQueryV2Config :=
  {| start_time := 1672531200000000%Z; end_time := 1672617600000000%Z;
     temp_table_dataset_prefix := "_";
     include_top_n_queries := true; top_n_queries := 10;
     include_operational_stats := false;
     include_read_operational_stats := false;
     env := "PROD" |}.

Definition day_events : list AuditEvent :=
  [ {| read_event :=
         Some {| re_timestamp := 1672568100000000%Z;
                 re_actor_email := "a@x.com";
                 resource := t1; fieldsRead := ["c1"];
                 readReason := Some "JOB"; jobName := Some "job1" |};
       query_event := None |};
    {| read_event := None;
       query_event :=
         Some {| qe_timestamp := 1672568100000000%Z;
                 qe_actor_email := "a@x.com";
                 query := "SELECT c1 FROM t1"; statementType := "SELECT";
                 job_name := Some "job1";
                 destinationTable := None; referencedTables := [t1];
                 start_time_q := Some 1672568095000000%Z;
                 end_time_q := Some 1672568100000000%Z;
                 billed_bytes := None; default_dataset := None;
                 numAffectedRows := None |} |} ].

(** ** Notions used in the statements *)

Definition insert_pair : AuditEvent :=
  {| read_event :=
       Some {| re_timestamp := 10; re_actor_email := "reader@x.com";
               resource := t1; fieldsRead := ["c1"];
               readReason := Some "JOB"; jobName := Some "job1" |};
     query_event :=
       Some {| qe_timestamp := 5000; qe_actor_email := "writer@x.com";
               query := "INSERT INTO t2 SELECT c1 FROM t1";
               statementType := "INSERT"; job_name := Some "job1";
               destinationTable := Some t2; referencedTables := [t1];
               start_time_q := None; end_time_q := None;
               billed_bytes := None; default_dataset := None;
               numAffectedRows := None |} |}.


(** [m] keeps [P]: whatever [m] returns or raises, [P] still holds of the
    state it leaves. *)
Definition maintains {A : Type} (P : Extractor -> Prop) (m : M A) : Prop :=
  forall s, P s -> P (m s).2.

(** The writes attempted between [s] and [s'] all succeeded. *)
Definition writes_ok (X : Externals) (s s' : Extractor) : Prop :=
  store_writes s <= store_writes s' /\
  forall n, store_writes s <= n < store_writes s' -> io_fault X n = None.

(** [m] raises exactly when a store write it attempts fails: it returns
    after writes that all succeeded, and it raises the error of its last
    write, those before having succeeded. *)
Definition faults_only (X : Externals) {A : Type} (m : M A) : Prop :=
  forall s,
    match m s with
    | (Returned _, s') => writes_ok X s s'
    | (Raised e, s') =>
        exists message,
          e = StoreWriteError message /\
          store_writes s < store_writes s' /\
          io_fault X (pred (store_writes s')) = Some message /\
          forall n, store_writes s <= n < pred (store_writes s') ->
                    io_fault X n = None
    end.

(** The state after [_report_error label e]. *)
Definition with_error (label : string) (e : Exception) (s : Extractor)
  : Extractor :=
  {| usage_state := usage_state s; uuid_to_query := uuid_to_query s;
     report :=
       report_warning ("usage-" +:+ label) (str_exception e)
         (incr_usage_error_count label (report s));
     uuids_drawn := uuids_drawn s; store_writes := store_writes s;
     yielded := yielded s |}.

(** A property of the usage state alone. *)
Definition on_store (Q : BigQueryUsageState -> Prop) : Extractor -> Prop :=
  fun s => Q (usage_state s).

(** An unresolvable entry, the one [usage_statistics] gives in
    [dangling_state]. *)
Definition dangling_entry : UsageStatistic :=
  {| us_timestamp := 0;
     us_resource := sample_table_str t1;
     us_query_count := 1;
     us_query_freq := [("d41d8cd98f00b204e9800998ecf8427f", 1)];
     us_user_freq := [("a@x.com", 1)];
     us_column_freq := [] |}.

(** A read event at the end of the window, which the window excludes. *)
Definition late_read : ReadEvent :=
  {| re_timestamp := hour; re_actor_email := "a@x.com";
     resource := t1; fieldsRead := ["c1"];
     readReason := Some "JOB"; jobName := Some "job1" |}.

(** ** Notions used in the further properties *)

(** The read events that the first branch of [_store_usage_event] stores:
    inside the window, on a known table that is not temporary. *)
Definition accepts_read (config : BigQueryV2Config) (X : Externals)
  (table_refs : list string) (r : ReadEvent) : bool :=
  in_window config r
  && bool_decide (table_str X (resource r) ∈ table_refs)
  && negb (is_temporary_table X (resource r)
             [temp_table_dataset_prefix config]).

Definition accepted_reads (config : BigQueryV2Config) (X : Externals)
  (table_refs : list string) (events : list AuditEvent) : list ReadEvent :=
  omap (fun event : AuditEvent =>
          match read_event event with
          | Some r => if accepts_read config X table_refs r then Some r else None
          | None => None
          end) events.

(** Every key of the read and column tables is a UUID drawn so far. *)
Definition keys_drawn (X : Externals) (s : Extractor) : Prop :=
  (forall k, k ∈ (read_events (usage_state s)).*1 ->
             exists n, n < uuids_drawn s /\ k = uuid4 X n) /\
  (forall k, k ∈ (column_accesses (usage_state s)).*1 ->
             exists n, n < uuids_drawn s /\ k = uuid4 X n).

(** Every stored query event refers to a text that is held, by [queries]
    or by [uuid_to_query]. *)
Definition references_held (s : Extractor) : Prop :=
  forall name q,
    (name, q) ∈ query_events (usage_state s) ->
    is_Some (queries (usage_state s) !! query q)
    \/ is_Some (uuid_to_query s !! query q).



(** The number of errors counted under a label. *)
Definition errors_under (label : string) (s : Extractor) : nat :=
  default 0 (usage_error_count (report s) !! label).

(** The usage record [record] is the one emitted for [entry] in [s]: the
    fields of the entry, each query reference replaced by its text. *)
Definition record_of (config : BigQueryV2Config) (s : Extractor)
  (entry : UsageStatistic) (record : UsageRecord) : Prop :=
  bucket_start_time record = us_timestamp entry /\
  ur_resource record = us_resource entry /\
  query_count record = us_query_count entry /\
  user_freq record = us_user_freq entry /\
  column_freq record = us_column_freq entry /\
  ur_top_n_queries record = top_n_queries config /\
  Forall2
    (fun (ref : string * nat) (resolved : string * nat) =>
       resolved.2 = ref.2 /\
       exists text,
         queries (usage_state s) !! ref.1 = Some text /\
         resolved.1 = default text (uuid_to_query s !! ref.1))
    (us_query_freq entry) (query_freq record).

(** The pair has a destination table that is allowed and known, and the
    operation it stands for is to be reported: read statistics are included,
    or the pair is a query event on its own whose statement type is one of
    [OPERATION_STATEMENT_TYPES]. *)
Definition derivable (config : BigQueryV2Config) (X : Externals)
  (table_refs : list string) (event : AuditEvent) : bool :=
  match _get_destination_table event with
  | Some dest =>
      pattern_allowed X dest
      && bool_decide (table_str X dest ∈ table_refs)
      && (include_read_operational_stats config
          || (bool_decide (read_event event = None)
              && match query_event event with
                 | Some q =>
                     bool_decide
                       (is_Some (OPERATION_STATEMENT_TYPES !! statementType q))
                 | None => false
                 end))
  | None => false
  end.

(** The pair has a destination table that is not allowed or not known. *)
Definition discarded (X : Externals) (table_refs : list string)
  (event : AuditEvent) : bool :=
  match _get_destination_table event with
  | Some dest =>
      negb (pattern_allowed X dest
            && bool_decide (table_str X dest ∈ table_refs))
  | None => false
  end.

(** The URN of the pair's destination table. *)
Definition destination_urn (config : BigQueryV2Config) (X : Externals)
  (event : AuditEvent) : option string :=
  (fun dest => to_urn X dest (env config)) <$> _get_destination_table event.

Definition operation_records (wus : list MetadataWorkUnit)
  : list (string * OperationClass) :=
  flat_map
    (fun wu =>
       match wu with
       | OperationWorkUnit urn aspect => [(urn, aspect)]
       | UsageWorkUnit _ => []
       end) wus.

(** ** Further concrete inputs *)

(** A read of table t2 inside the window of [sample_config]. *)
Definition read_of_t2 : ReadEvent :=
  {| re_timestamp := 10; re_actor_email := "a@x.com";
     resource := t2; fieldsRead := ["c1"];
     readReason := Some "JOB"; jobName := Some "job1" |}.

(** The state after the ingestion of [topn_events]. *)
Definition topn_ingested : Extractor :=
  (_ingest_events sample_config sample_externals topn_events
     [sample_table_str t1] new_extractor).2.

(** The usage record of [topn_ingested]. *)
Definition topn_entry : UsageStatistic :=
  {| us_timestamp := 0;
     us_resource := sample_table_str t1;
     us_query_count := 13;
     us_query_freq :=
       [(MD5.hexdigest "SELECT 1", 5); (MD5.hexdigest "SELECT 2", 5);
        (MD5.hexdigest "SELECT 3", 3)];
     us_user_freq := [("a@x.com", 13)];
     us_column_freq := [("c1", 13)] |}.



(** An INSERT into table t1, reading table t2. *)
Definition an_insert_event : QueryEvent :=
  {| qe_timestamp := 5000; qe_actor_email := "a@x.com";
     query := "INSERT INTO t1 SELECT c1 FROM t2"; statementType := "INSERT";
     job_name := Some "job1";
     destinationTable := Some t1; referencedTables := [t2];
     start_time_q := None; end_time_q := None;
     billed_bytes := None; default_dataset := None;
     numAffectedRows := Some 3%Z |}.

Definition an_insert : AuditEvent :=
  {| read_event := None; query_event := Some an_insert_event |}.

(** The state after the ingestion of [an_insert], and the pair that
    [standalone_events] makes of its stored query event. *)
Definition insert_ingested : Extractor :=
  (_ingest_events sample_config sample_externals [an_insert]
     [sample_table_str t1] new_extractor).2.

Definition stored_insert : AuditEvent :=
  {| read_event := None;
     query_event :=
       Some (set_query an_insert_event
               (MD5.hexdigest "INSERT INTO t1 SELECT c1 FROM t2")) |}.

(** * Properties *)

(** ** The operational deriver *)

Section Deriver.
Context (config : BigQueryV2Config) (X : Externals).

Lemma create_operation_workunit_urn event table_refs s urn aspect s' :
  _create_operation_workunit config X event table_refs s
    = (Returned (Some (OperationWorkUnit urn aspect)), s') ->
  exists dest meta s1,
    _get_destination_table event = Some dest /\
    urn = to_urn X dest (env config) /\
    _extract_operational_meta event s = (Returned (Some meta), s1) /\
    operationType aspect = statement_type meta /\
    customOperationType aspect = custom_type meta.
Proof.
  unfold _create_operation_workunit.
  destruct (bool_decide (read_event event = None)
            && bool_decide (query_event event = None)); [discriminate|].
  destruct (_get_destination_table event) as [dest|]; [|discriminate].
  destruct (negb (_is_table_allowed X (Some dest))
            || negb (bool_decide (table_str X dest ∈ table_refs)));
    [discriminate|].
  unfold bind.
  destruct (_extract_operational_meta event s) as [[[meta|]|e] s1];
    try discriminate.
  destruct (negb (include_read_operational_stats config)
            && negb (is_write_type (statement_type meta))); [discriminate|].
  unfold ret. intros [= <- <- <-].
  exists dest, meta, s1. simpl. auto.
Qed.

Lemma insert_statement_type :
  OPERATION_STATEMENT_TYPES !! "INSERT" = Some INSERT.
Proof. vm_compute. reflexivity. Qed.

Lemma custom_is_no_write_type : is_write_type CUSTOM = false.
Proof. vm_compute. reflexivity. Qed.

Lemma statement_type_write_type st op :
  OPERATION_STATEMENT_TYPES !! st = Some op -> is_write_type op = true.
Proof.
  intros H. unfold is_write_type. apply bool_decide_eq_true.
  apply list_elem_of_fmap. exists (st, op).
  split; [done | by apply elem_of_map_to_list].
Qed.

(** C3, as stated, fails: with a read event in the pair, the destination
    that the query event declares is not the one returned. *)
Lemma C3_declared_destination_not_preferred :
  ~ (forall event q dest,
        query_event event = Some q ->
        destinationTable q = Some dest ->
        _get_destination_table event = Some dest).
Proof.
  intros H.
  specialize (H insert_pair _ t2 eq_refl eq_refl).
  discriminate H.
Qed.

(** C3, amended: the destination is the read event's resource whenever the
    pair has a read event, whatever the query event declares; the query
    event's declared destination is used only when no read event
    accompanies it; an operation work unit that is emitted is for the
    destination so chosen. *)
Theorem C3_destination_prefers_read_resource event :
  (forall r, read_event event = Some r ->
     _get_destination_table event = Some (resource r)) /\
  (read_event event = None ->
   forall q, query_event event = Some q ->
     _get_destination_table event = destinationTable q) /\
  (forall table_refs s urn aspect s',
     _create_operation_workunit config X event table_refs s
       = (Returned (Some (OperationWorkUnit urn aspect)), s') ->
     exists dest,
       urn = to_urn X dest (env config) /\
       match read_event event with
       | Some r => dest = resource r
       | None =>
           exists q, query_event event = Some q /\ destinationTable q = Some dest
       end).
Proof.
  split; [|split].
  - intros r Hr. unfold _get_destination_table. by rewrite Hr.
  - intros Hr q Hq. unfold _get_destination_table. rewrite Hr, Hq.
    by destruct (destinationTable q).
  - intros table_refs s urn aspect s' H.
    apply create_operation_workunit_urn in H
      as (dest & meta & s1 & Hdest & Hurn & _).
    exists dest. split; [exact Hurn|].
    unfold _get_destination_table in Hdest.
    destruct (read_event event) as [r|]; [congruence|].
    destruct (query_event event) as [q|]; [|discriminate].
    exists q. split; [reflexivity|].
    destruct (destinationTable q); congruence.
Qed.



(** C5: for a query event whose statement type is a key of
    OPERATION_STATEMENT_TYPES, an accompanying read event makes the record
    custom with the raw statement type; the mapped write category is given
    exactly when no read event accompanies the query event. *)
Theorem C5_read_suppresses_write_classification event q op s :
  query_event event = Some q ->
  OPERATION_STATEMENT_TYPES !! statementType q = Some op ->
  exists m s',
    _extract_operational_meta event s = (Returned (Some m), s') /\
    (is_Some (read_event event) ->
       statement_type m = CUSTOM /\ custom_type m = Some (statementType q)) /\
    (read_event event = None ->
       statement_type m = op /\ custom_type m = None) /\
    (is_write_type (statement_type m) = true <-> read_event event = None).
Proof.
  intros Hq Hop.
  unfold _extract_operational_meta. rewrite Hq, Hop.
  destruct (read_event event) as [r|]; simpl.
  - eexists _, _. split; [reflexivity|]. simpl.
    split; [auto|]. split; [discriminate|].
    split; [|discriminate]. intros Hw.
    rewrite custom_is_no_write_type in Hw. discriminate Hw.
  - eexists _, _. split; [reflexivity|]. simpl.
    split; [intros [? [=]]|]. split; [auto|].
    split; [auto|]. intros _. by eapply statement_type_write_type.
Qed.

End Deriver.

(** ** Reasoning about the monad *)

Section Monad.
Context {A B : Type} (P : Extractor -> Prop).

Lemma maintains_ret (a : A) : maintains P (ret a).
Proof. intros s H. exact H. Qed.

Lemma maintains_bind (m : M A) (f : A -> M B) :
  maintains P m -> (forall a, maintains P (f a)) -> maintains P (bind m f).
Proof.
  intros Hm Hf s H. unfold bind. specialize (Hm s H).
  destruct (m s) as [[a|e] s']; simpl in *; [by apply Hf | done].
Qed.

Lemma maintains_try_except (m : M A) (h : Exception -> M A) :
  maintains P m -> (forall e, maintains P (h e)) -> maintains P (try_except m h).
Proof.
  intros Hm Hh s H. unfold try_except. specialize (Hm s H).
  destruct (m s) as [[a|e] s']; simpl in *; [done | by apply Hh].
Qed.

Lemma maintains_for_each (body : A -> M unit) (l : list A) :
  (forall a, maintains P (body a)) -> maintains P (for_each body l).
Proof.
  intros Hbody. induction l as [|a l IH]; simpl.
  - intros s H. exact H.
  - intros s H. unfold bind. specialize (Hbody a s H).
    destruct (body a s) as [[[]|e] s']; simpl in *; [by apply IH | done].
Qed.

End Monad.

Section Faults.
Context (X : Externals) {A B : Type}.

Lemma writes_ok_refl s s' :
  store_writes s' = store_writes s -> writes_ok X s s'.
Proof. intros H. split; [lia|]. intros n Hn. lia. Qed.

Lemma faults_only_ret (a : A) : faults_only X (ret a).
Proof. intros s. by apply writes_ok_refl. Qed.

Lemma faults_only_bind (m : M A) (f : A -> M B) :
  faults_only X m -> (forall a, faults_only X (f a)) -> faults_only X (bind m f).
Proof.
  intros Hm Hf s. unfold bind. specialize (Hm s).
  destruct (m s) as [[a|e] s1]; [|exact Hm].
  destruct Hm as [Hle Hok].
  specialize (Hf a s1). destruct (f a s1) as [[b|e] s2].
  - destruct Hf as [Hle' Hok']. split; [lia|]. intros n Hn.
    destruct (decide (n < store_writes s1)); [apply Hok | apply Hok']; lia.
  - destruct Hf as (message & -> & Hlt & Hlast & Hok').
    exists message. repeat split; auto; [lia|]. intros n Hn.
    destruct (decide (n < store_writes s1)); [apply Hok | apply Hok']; lia.
Qed.

Lemma faults_only_update_report f : faults_only X (update_report f).
Proof. intros s. by apply writes_ok_refl. Qed.

Lemma faults_only_set_uuid_to_query k v : faults_only X (set_uuid_to_query k v).
Proof. intros s. by apply writes_ok_refl. Qed.

Lemma faults_only_new_uuid : faults_only X (new_uuid X).
Proof. intros s. by apply writes_ok_refl. Qed.

Lemma faults_only_store_write w : faults_only X (store_write X w).
Proof.
  intros s. unfold store_write.
  destruct (io_fault X (store_writes s)) as [message|] eqn:Hfault; simpl.
  - exists message. repeat split; auto. intros n Hn. lia.
  - split; simpl; [lia|]. intros n Hn.
    by replace n with (store_writes s) by lia.
Qed.

End Faults.

Lemma faults_only_for_each X {A : Type} (body : A -> M unit) (l : list A) :
  (forall a, faults_only X (body a)) -> faults_only X (for_each body l).
Proof.
  intros Hbody. induction l as [|a l IH]; simpl.
  - apply faults_only_ret.
  - apply faults_only_bind; auto.
Qed.

Create HintDb faults discriminated.
#[global] Hint Resolve faults_only_ret faults_only_update_report
  faults_only_set_uuid_to_query faults_only_new_uuid faults_only_store_write
  : faults.

(** ** The correlator *)

Section Correlator.
Context (config : BigQueryV2Config) (X : Externals).

Lemma report_error_eq label e s :
  _report_error label e s
  = (Returned tt,
     {| usage_state := usage_state s; uuid_to_query := uuid_to_query s;
        report :=
          report_warning ("usage-" +:+ label) (str_exception e)
            (incr_usage_error_count label (report s));
        uuids_drawn := uuids_drawn s; store_writes := store_writes s;
        yielded := yielded s |}).
Proof. reflexivity. Qed.

Lemma store_usage_event_faults_only event table_refs :
  faults_only X (_store_usage_event config X event table_refs).
Proof.
  assert (Hq : forall q name, faults_only X (store_query_event X q name)).
  { intros q name. unfold store_query_event.
    apply faults_only_bind; [intros s; by apply writes_ok_refl|].
    intros stored.
    apply faults_only_bind.
    - destruct (negb (bool_decide (stored = _)));
        repeat (apply faults_only_bind; [auto with faults|intros ?]);
        auto with faults.
    - intros ref. apply faults_only_bind; auto with faults. }
  unfold _store_usage_event.
  assert (Hother : faults_only X
    match query_event event with
    | Some q =>
        if truthy (job_name q)
        then store_query_event X q (default "" (job_name q))
        else ret false
    | None => ret false
    end).
  { destruct (query_event event) as [q|]; auto with faults.
    destruct (truthy (job_name q)); auto with faults. }
  destruct (read_event event) as [r|]; [|exact Hother].
  destruct (in_window config r); [|exact Hother].
  unfold store_read_event.
  destruct (negb (bool_decide (_ ∈ table_refs))).
  { repeat (apply faults_only_bind; [auto with faults|intros ?]);
      auto with faults. }
  destruct (is_temporary_table X _ _).
  { repeat (apply faults_only_bind; [auto with faults|intros ?]);
      auto with faults. }
  apply faults_only_bind; [auto with faults|intros key].
  apply faults_only_bind; [auto with faults|intros _].
  apply faults_only_bind; [|auto with faults].
  apply faults_only_for_each. intros field_read.
  apply faults_only_bind; auto with faults.
Qed.

Lemma ingest_events_returns events table_refs s :
  exists s', _ingest_events config X events table_refs s = (Returned tt, s').
Proof.
  revert s. induction events as [|event events IH]; intros s; simpl.
  - by eexists.
  - unfold bind at 1, try_except, bind, ret.
    destruct (_store_usage_event config X event table_refs s) as [[b|e] s1].
    + apply IH.
    + rewrite report_error_eq. apply IH.
Qed.



(** C10: a read event whose timestamp is outside [start_time, end_time),
    arriving on its own, is reported as not processed and leaves the whole
    state as it was: nothing is stored, no drop counter and no error
    counter moves, also through the loop of [_ingest_events]; and when
    such a read event comes with a query event, the read tables, the drop
    counters and the error counters still do not move. *)
Theorem C10_read_outside_window_ignored r table_refs s :
  (re_timestamp r < start_time config \/ end_time config <= re_timestamp r)%Z ->
  _store_usage_event config X
    {| read_event := Some r; query_event := None |} table_refs s
  = (Returned false, s) /\
  _ingest_events config X
    [{| read_event := Some r; query_event := None |}] table_refs s
  = (Returned tt, s) /\
  forall q,
    let s' :=
      (_store_usage_event config X
         {| read_event := Some r; query_event := Some q |} table_refs s).2 in
    read_events (usage_state s') = read_events (usage_state s) /\
    column_accesses (usage_state s') = column_accesses (usage_state s) /\
    num_usage_resources_dropped (report s')
      = num_usage_resources_dropped (report s) /\
    dropped (report s') = dropped (report s) /\
    usage_error_count (report s') = usage_error_count (report s).
Proof.
  intros Hout.
  assert (Hwin : in_window config r = false).
  { unfold in_window. apply andb_false_iff.
    destruct Hout; [left; apply Z.leb_gt | right; apply Z.ltb_ge]; lia. }
  assert (Hstep :
    _store_usage_event config X
      {| read_event := Some r; query_event := None |} table_refs s
    = (Returned false, s)).
  { unfold _store_usage_event. simpl. by rewrite Hwin. }
  split; [exact Hstep|]. split.
  - simpl. unfold bind at 1, try_except, bind. by rewrite Hstep.
  - intros q. unfold _store_usage_event. simpl. rewrite Hwin.
    destruct (truthy (job_name q)); [|done].
    unfold store_query_event, queries_get, bind, ret, store_write, new_uuid,
      set_uuid_to_query, update_report. simpl.
    repeat (case_match; simplify_eq/=); done.
Qed.

End Correlator.

(** ** Emission of the usage records *)

Section Emission.
Context (config : BigQueryV2Config) (X : Externals).

Lemma resolve_query_freq_unresolved freq s ref count :
  (ref, count) ∈ freq ->
  queries (usage_state s) !! ref = None ->
  exists key,
    key ∈ freq.*1 /\ queries (usage_state s) !! key = None /\
    resolve_query_freq freq s = (Raised (KeyError key), s).
Proof.
  induction freq as [|[h c] freq IH]; intros Hin Hnone.
  - by apply elem_of_nil in Hin.
  - simpl. unfold bind at 1. unfold resolve_query, bind, queries_getitem.
    destruct (queries (usage_state s) !! h) as [text|] eqn:Hh.
    + apply elem_of_cons in Hin as [[= -> ->]|Hin]; [congruence|].
      destruct (IH Hin Hnone) as (key & Hkey & Hk & Hres).
      exists key. split; [by right|]. split; [done|].
      unfold bind. simpl. by rewrite Hres.
    + exists h. split; [left|]. done.
Qed.

Lemma emit_usage_entry_unresolved entry s ref count :
  (ref, count) ∈ us_query_freq entry ->
  queries (usage_state s) !! ref = None ->
  exists key,
    key ∈ (us_query_freq entry).*1 /\ queries (usage_state s) !! key = None /\
    emit_usage_entry config entry s
    = (Returned tt, with_error "statistics-workunit" (KeyError key) s).
Proof.
  intros Hin Hnone.
  destruct (resolve_query_freq_unresolved _ _ _ _ Hin Hnone)
    as (key & Hkey & Hk & Hres).
  exists key. split; [done|]. split; [done|].
  unfold emit_usage_entry, try_except, bind at 1. by rewrite Hres.
Qed.

Lemma emit_usage_entry_returns entry s :
  exists s', emit_usage_entry config entry s = (Returned tt, s').
Proof.
  unfold emit_usage_entry, try_except.
  match goal with |- context [match ?m with _ => _ end] => destruct m as [[[]|e] s1] end.
  - by eexists.
  - rewrite report_error_eq. by eexists.
Qed.

Lemma for_each_returns {A : Type} (body : A -> M unit) (l : list A) s :
  (forall a s, exists s', body a s = (Returned tt, s')) ->
  exists s', for_each body l s = (Returned tt, s').
Proof.
  intros Hbody. revert s. induction l as [|a l IH]; intros s; simpl.
  - by eexists.
  - unfold bind. destruct (Hbody a s) as [s1 ->]. apply IH.
Qed.

Lemma generate_usage_workunits_returns s :
  exists s', _generate_usage_workunits config X s = (Returned tt, s').
Proof.
  unfold _generate_usage_workunits.
  apply for_each_returns. apply emit_usage_entry_returns.
Qed.

Lemma run_returns events table_refs s :
  exists s', _run config X events table_refs s = (Returned tt, s').
Proof.
  unfold _run, try_except.
  match goal with |- context [match ?m with _ => _ end] => destruct m as [[[]|e] s1] end;
    by eexists.
Qed.

(** C2, as stated, fails: a reference that resolves to nothing does not
    make the emission raise. *)
Lemma C2_unresolved_reference_does_not_abort :
  ~ (forall config X s,
        (exists entry ref count,
           entry ∈ usage_statistics X
                     (if include_top_n_queries config
                      then top_n_queries config else 0) (usage_state s) /\
           (ref, count) ∈ us_query_freq entry /\
           queries (usage_state s) !! ref = None /\
           uuid_to_query s !! ref = None) ->
        exists e, (_generate_usage_workunits config X s).1 = Raised e).
Proof.
  intros H.
  destruct (H sample_config sample_externals dangling_state) as [e He].
  - eexists _, "d41d8cd98f00b204e9800998ecf8427f", 1.
    split; [vm_compute; left|]. split; [left|]. by split.
  - vm_compute in He. discriminate He.
Qed.

(** C2, amended: during emission, a query reference that is found neither
    in [queries] nor in [uuid_to_query] makes its record fail with a
    KeyError that the handler of the emission loop catches: no work unit
    is yielded for the record, the error is counted under
    "statistics-workunit" and reported as a warning, the loop goes on with
    the remaining records and returns normally; [_run] does not raise
    either. *)
Theorem C2_unresolved_reference_is_absorbed entry rest s ref count :
  (ref, count) ∈ us_query_freq entry ->
  queries (usage_state s) !! ref = None ->
  uuid_to_query s !! ref = None ->
  (exists key,
     emit_usage_entry config entry s
     = (Returned tt, with_error "statistics-workunit" (KeyError key) s) /\
     for_each (emit_usage_entry config) (entry :: rest) s
     = for_each (emit_usage_entry config) rest
         (with_error "statistics-workunit" (KeyError key) s)) /\
  (exists s',
     for_each (emit_usage_entry config) (entry :: rest) s = (Returned tt, s')) /\
  (forall s0, exists s', _generate_usage_workunits config X s0 = (Returned tt, s')) /\
  (forall events table_refs s0,
     exists s', _run config X events table_refs s0 = (Returned tt, s')).
Proof.
  intros Hin Hnone _.
  destruct (emit_usage_entry_unresolved _ _ _ _ Hin Hnone)
    as (key & _ & _ & Hemit).
  split; [|split; [|split]].
  - exists key. split; [exact Hemit|].
    simpl. unfold bind. by rewrite Hemit.
  - apply for_each_returns. apply emit_usage_entry_returns.
  - apply generate_usage_workunits_returns.
  - apply run_returns.
Qed.

End Emission.

(** C6: the code at two query events whose texts collide under MD5, each
    read once.  The store keeps both texts, the second under a UUID, and
    counts the collision; at emission the record of the table read by the
    second query is not emitted: its reference raises a KeyError, which is
    counted and reported. *)
Theorem C6_colliding_text_unresolved_at_emission :
  let s :=
    (_run sample_config sample_externals colliding_events
       [sample_table_str t1; sample_table_str t2] new_extractor).2 in
  text_a <> text_b /\
  MD5.hexdigest text_a = MD5.hexdigest text_b /\
  num_usage_query_hash_collisions (report s) = 1 /\
  queries (usage_state s) !! MD5.hexdigest text_a = Some text_a /\
  uuid_to_query s !! sample_uuid4 0 = Some text_b /\
  query <$> table_get "job1" (query_events (usage_state s))
    = Some (MD5.hexdigest text_a) /\
  query <$> table_get "job2" (query_events (usage_state s))
    = Some (sample_uuid4 0) /\
  usage_records (yielded s)
    = [ {| bucket_start_time := 0;
           ur_resource := sample_table_str t1;
           query_count := 1;
           query_freq := [(text_a, 1)];
           user_freq := [("a@x.com", 1)];
           column_freq := [("c1", 1)];
           ur_top_n_queries := 2 |} ] /\
  usage_error_count (report s) !! "statistics-workunit" = Some 1 /\
  warnings (report s)
    = [("usage-statistics-workunit", "'" +:+ sample_uuid4 0 +:+ "'")].
Proof.
  vm_compute. repeat split; try reflexivity. discriminate.
Qed.

(** ** Invariants of the store *)

Section StoreInvariant.
Context (config : BigQueryV2Config) (X : Externals).
Context (Q : BigQueryUsageState -> Prop).

Lemma maintains_update_report f : maintains (on_store Q) (update_report f).
Proof. intros s H. exact H. Qed.

Lemma maintains_set_uuid_to_query k v :
  maintains (on_store Q) (set_uuid_to_query k v).
Proof. intros s H. exact H. Qed.

Lemma maintains_new_uuid : maintains (on_store Q) (new_uuid X).
Proof. intros s H. exact H. Qed.

Lemma maintains_store_write w :
  (forall u, Q u -> Q (w u)) -> maintains (on_store Q) (store_write X w).
Proof.
  intros Hw s H. unfold store_write.
  destruct (io_fault X (store_writes s)); simpl; [exact H | by apply Hw].
Qed.

Lemma maintains_report_error label e :
  maintains (on_store Q) (_report_error label e).
Proof. intros s H. exact H. Qed.

Hypothesis set_read_events_ok : forall k v u, Q u -> Q (set_read_events k v u).
Hypothesis set_column_accesses_ok :
  forall k v u, Q u -> Q (set_column_accesses k v u).
Hypothesis set_query_events_ok :
  forall k v u, Q u -> Q (set_query_events k v u).
Hypothesis set_queries_ok :
  forall h text u,
    default text (queries u !! h) = text -> Q u -> Q (set_queries h text u).

Lemma store_query_event_maintains q name :
  maintains (on_store Q) (store_query_event X q name).
Proof using set_query_events_ok set_queries_ok.
  intros s H. unfold on_store in *.
  unfold store_query_event, queries_get, bind, ret, store_write, new_uuid,
    set_uuid_to_query, update_report. simpl.
  destruct (bool_decide (default _ (queries (usage_state s) !! _) = _))
    eqn:Hstored; simpl.
  - apply bool_decide_eq_true in Hstored.
    destruct (io_fault X (store_writes s)); simpl; [exact H|].
    destruct (io_fault X (S (store_writes s))); simpl; auto.
  - destruct (io_fault X (store_writes s)); simpl; auto.
Qed.

Lemma store_read_event_maintains r table_refs :
  maintains (on_store Q) (store_read_event config X r table_refs).
Proof using set_read_events_ok set_column_accesses_ok.
  unfold store_read_event.
  destruct (negb (bool_decide (_ ∈ table_refs))).
  { repeat (apply maintains_bind; [apply maintains_update_report|intros ?]).
    apply maintains_ret. }
  destruct (is_temporary_table X _ _).
  { repeat (apply maintains_bind; [apply maintains_update_report|intros ?]).
    apply maintains_ret. }
  apply maintains_bind; [apply maintains_new_uuid|intros key].
  apply maintains_bind; [apply maintains_store_write; auto|intros _].
  apply maintains_bind; [|intros _; apply maintains_ret].
  apply maintains_for_each. intros field_read.
  apply maintains_bind; [apply maintains_new_uuid|intros k].
  apply maintains_store_write; auto.
Qed.

Lemma store_usage_event_maintains event table_refs :
  maintains (on_store Q) (_store_usage_event config X event table_refs).
Proof using All.
  unfold _store_usage_event.
  assert (Hother : maintains (on_store Q)
    match query_event event with
    | Some q =>
        if truthy (job_name q)
        then store_query_event X q (default "" (job_name q))
        else ret false
    | None => ret false
    end).
  { destruct (query_event event) as [q|]; [|apply maintains_ret].
    destruct (truthy (job_name q));
      [apply store_query_event_maintains | apply maintains_ret]. }
  destruct (read_event event) as [r|]; [|exact Hother].
  destruct (in_window config r); [|exact Hother].
  apply store_read_event_maintains.
Qed.

Lemma ingest_events_maintains events table_refs :
  maintains (on_store Q) (_ingest_events config X events table_refs).
Proof using All.
  induction events as [|event events IH]; simpl.
  - apply maintains_ret.
  - apply maintains_bind; [|intros _; exact IH].
    apply maintains_try_except.
    + apply maintains_bind; [|intros ?; apply maintains_ret].
      apply store_usage_event_maintains.
    + intros e. apply maintains_report_error.
Qed.

End StoreInvariant.

(** ** Tables *)

Section Tables.
Context {V : Type}.
Implicit Types t : list (string * V).





End Tables.

Section Stream.
Context (config : BigQueryV2Config) (X : Externals).








End Stream.

(** ** Deduplication of truncated texts *)

Section Dedup.
Context (config : BigQueryV2Config) (X : Externals).



Lemma ingest_events_keeps_text events table_refs s h p :
  queries (usage_state s) !! h = Some p ->
  queries (usage_state (_ingest_events config X events table_refs s).2) !! h
  = Some p.
Proof.
  apply (ingest_events_maintains config X (fun u => queries u !! h = Some p));
    try done.
  intros h' text u Hstored Hu. simpl.
  destruct (decide (h' = h)) as [->|Hne].
  - rewrite Hu in Hstored. simpl in Hstored. subst.
    apply lookup_insert_eq.
  - by rewrite lookup_insert_ne.
Qed.




End Dedup.

(** ** The window of the query frequencies *)

Section Grouping.
Context {A K : Type} `{EqDecision K}.
Implicit Types (groups : list (K * list A)) (rows : list A).

Lemma add_to_group_keys k a groups :
  (add_to_group k a groups).*1
  = if decide (k ∈ groups.*1) then groups.*1 else groups.*1 ++ [k].
Proof.
  induction groups as [|[k' g] groups IH]; [done|].
  cbn [add_to_group]. rewrite fmap_cons. cbn [fst].
  destruct (decide (k = k')) as [->|Hne]; rewrite fmap_cons; cbn [fst].
  - by rewrite decide_True by left.
  - rewrite IH. destruct (decide (k ∈ groups.*1)).
    + by rewrite decide_True by (by right).
    + rewrite decide_False; [done|]. by intros [?|?]%elem_of_cons.
Qed.

Lemma add_to_group_new k a groups :
  k ∉ groups.*1 -> add_to_group k a groups = groups ++ [(k, [a])].
Proof.
  induction groups as [|[k' g] groups IH]; [done|].
  rewrite fmap_cons. cbn [fst]. intros [Hne Hk]%not_elem_of_cons.
  cbn [add_to_group]. rewrite decide_False by done.
  by rewrite IH.
Qed.

Lemma fold_add_to_group_NoDup (key : A -> K) rows groups :
  NoDup groups.*1 ->
  NoDup (fold_left (fun gs a => add_to_group (key a) a gs) rows groups).*1.
Proof.
  revert groups. induction rows as [|a rows IH]; intros groups Hg; [done|].
  cbn [fold_left]. apply IH. rewrite add_to_group_keys.
  destruct (decide (key a ∈ groups.*1)); [done|].
  apply NoDup_app. split; [done|]. split; [|apply NoDup_singleton].
  by intros x Hx ->%list_elem_of_singleton.
Qed.

Lemma group_by_NoDup (key : A -> K) rows : NoDup (group_by key rows).*1.
Proof. apply fold_add_to_group_NoDup. constructor. Qed.

Lemma fold_add_to_group_distinct (key : A -> K) rows groups :
  NoDup (map key rows) ->
  (forall a, a ∈ rows -> key a ∉ groups.*1) ->
  fold_left (fun gs a => add_to_group (key a) a gs) rows groups
  = groups ++ map (fun a => (key a, [a])) rows.
Proof.
  revert groups. induction rows as [|a rows IH]; intros groups Hnd Hfresh.
  - by rewrite app_nil_r.
  - cbn [fold_left map]. apply NoDup_cons in Hnd as [Ha Hnd].
    rewrite add_to_group_new by (apply Hfresh; left).
    rewrite IH; [by rewrite <- app_assoc|done|].
    intros b Hb. rewrite fmap_app. intros [Hin|Hin]%elem_of_app.
    + by apply (Hfresh b); [right|].
    + apply list_elem_of_singleton in Hin. simpl in Hin.
      apply Ha. rewrite <- Hin. apply list_elem_of_fmap. by exists b.
Qed.

(** Rows that all differ on the key form groups of one row each. *)
Lemma group_by_distinct (key : A -> K) rows :
  NoDup (map key rows) ->
  group_by key rows = map (fun a => (key a, [a])) rows.
Proof.
  intros Hnd. unfold group_by.
  rewrite fold_add_to_group_distinct; [done|done|].
  intros a _. apply not_elem_of_nil.
Qed.

(** ... and each row is then the first of its partition. *)
Lemma row_number_distinct (part : A -> K) (le : A -> A -> bool) rows :
  NoDup (map part rows) ->
  row_number part le rows = map (fun a => (a, 1)) rows.
Proof.
  intros Hnd. unfold row_number. rewrite group_by_distinct by done.
  clear Hnd. induction rows as [|a rows IH]; [done|].
  cbn [map flat_map]. by rewrite IH.
Qed.

End Grouping.

Section Sorting.
Context {A : Type}.

Lemma insert_sorted_tagged (le : A -> A -> bool) (c : nat) x l :
  insert_sorted (fun a b : A * nat => le a.1 b.1) (x, c)
    (map (fun a => (a, c)) l)
  = map (fun a => (a, c)) (insert_sorted le x l).
Proof.
  induction l as [|y l IH]; [done|].
  cbn [map insert_sorted fst]. destruct (le x y); [done|].
  cbn [map]. by rewrite IH.
Qed.

Lemma order_by_tagged (le : A -> A -> bool) (c : nat) l :
  order_by (fun a b : A * nat => le a.1 b.1) (map (fun a => (a, c)) l)
  = map (fun a => (a, c)) (order_by le l).
Proof.
  unfold order_by. induction l as [|x l IH]; [done|].
  cbn [map fold_right]. rewrite IH. apply insert_sorted_tagged.
Qed.

Lemma filter_tagged (n c : nat) (l : list A) :
  c <= n ->
  List.filter (fun row : A * nat => (row.2 <=? n)%nat) (map (fun a => (a, c)) l)
  = map (fun a => (a, c)) l.
Proof.
  intros Hc. induction l as [|x l IH]; [done|].
  cbn [map List.filter snd]. rewrite (proj2 (Nat.leb_le c n) Hc).
  by rewrite IH.
Qed.

End Sorting.

Section Window.
Context (X : Externals).

Lemma counted_keys {A : Type} (key : A -> Z * string * string) rows :
  map (fun row : Z * string * string * nat => row.1) (counted key rows)
  = (group_by key rows).*1.
Proof. unfold counted. by rewrite map_map. Qed.

(** The window of subquery [b] is partitioned by the very columns of the
    GROUP BY, so every row has rank 1 and [WHERE rank <= top_n] with
    [top_n >= 1] keeps all of them. *)
Lemma subquery_b_uncapped top_n u :
  1 <= top_n ->
  subquery_b X top_n u
  = freq_groups
      (order_by freq_order
         (counted (fun j : (string * ReadEvent) * (string * QueryEvent) =>
                     (r_timestamp X j.1, r_resource X j.1, q_query j.2))
                  (joined_reads u))).
Proof.
  intros Hn. unfold subquery_b.
  rewrite row_number_distinct
    by (rewrite counted_keys; apply group_by_NoDup).
  rewrite order_by_tagged, filter_tagged by done.
  rewrite map_map. simpl. by rewrite map_id.
Qed.

Lemma usage_statistics_top_n_ignored n m u :
  1 <= n -> 1 <= m -> usage_statistics X n u = usage_statistics X m u.
Proof.
  intros Hn Hm. unfold usage_statistics.
  by rewrite !subquery_b_uncapped.
Qed.

End Window.

(** C1: the code at three queries read 5, 5 and 3 times on one table in
    one bucket, with top_n_queries = 2: the usage record lists all three
    queries. *)
Theorem C1_top_two_keeps_three :
  let s :=
    (_run sample_config sample_externals topn_events
       [sample_table_str t1] new_extractor).2 in
  include_top_n_queries sample_config = true /\
  top_n_queries sample_config = 2 /\
  map query_freq (usage_records (yielded s))
  = [[("SELECT 1", 5); ("SELECT 2", 5); ("SELECT 3", 3)]].
Proof. vm_compute. by repeat split. Qed.

(** ** The theorems at concrete inputs *)

Lemma C2_unresolved_reference_is_absorbed_witness :
  ("d41d8cd98f00b204e9800998ecf8427f", 1) ∈ us_query_freq dangling_entry /\
  queries (usage_state dangling_state)
    !! "d41d8cd98f00b204e9800998ecf8427f" = None /\
  uuid_to_query dangling_state !! "d41d8cd98f00b204e9800998ecf8427f" = None /\
  exists s',
    for_each (emit_usage_entry sample_config) [dangling_entry] dangling_state
    = (Returned tt, s').
Proof.
  assert (Hin : ("d41d8cd98f00b204e9800998ecf8427f", 1)
                ∈ us_query_freq dangling_entry) by left.
  split; [exact Hin|]. split; [reflexivity|]. split; [reflexivity|].
  exact (proj1 (proj2
    (C2_unresolved_reference_is_absorbed sample_config sample_externals
       dangling_entry [] dangling_state _ _ Hin eq_refl eq_refl))).
Defined.

Lemma C3_destination_prefers_read_resource_witness :
  read_event insert_pair <> None /\
  (destinationTable <$> query_event insert_pair) = Some (Some t2) /\
  _get_destination_table insert_pair = Some t1.
Proof.
  split; [discriminate|]. split; [reflexivity|].
  exact (proj1
    (C3_destination_prefers_read_resource sample_config sample_externals
       insert_pair) _ eq_refl).
Defined.


Lemma C5_read_suppresses_write_classification_witness :
  exists m s',
    _extract_operational_meta insert_pair new_extractor
      = (Returned (Some m), s') /\
    (is_Some (read_event insert_pair) ->
       statement_type m = CUSTOM /\ custom_type m = Some "INSERT") /\
    (read_event insert_pair = None ->
       statement_type m = INSERT /\ custom_type m = None) /\
    (is_write_type (statement_type m) = true <-> read_event insert_pair = None).
Proof.
  exact (C5_read_suppresses_write_classification insert_pair _ INSERT
           new_extractor eq_refl insert_statement_type).
Defined.




Lemma C10_read_outside_window_ignored_witness :
  (end_time sample_config <= re_timestamp late_read)%Z /\
  _store_usage_event sample_config sample_externals
    {| read_event := Some late_read; query_event := None |}
    [sample_table_str t1] new_extractor
  = (Returned false, new_extractor).
Proof.
  assert (Hlate : (end_time sample_config <= re_timestamp late_read)%Z)
    by (vm_compute; discriminate).
  split; [exact Hlate|].
  exact (proj1
    (C10_read_outside_window_ignored sample_config sample_externals late_read
       [sample_table_str t1] new_extractor (or_intror Hlate))).
Defined.

(** ** Examples *)

Example failed_write_is_counted :
  let s :=
    (_ingest_events sample_config faulty_externals two_reads
       [sample_table_str t1] new_extractor).2 in
  map (fun row : string * ReadEvent => jobName row.2)
      (read_events (usage_state s)) = [Some "job2"] /\
  usage_error_count (report s) !! "store-event" = Some 1 /\
  warnings (report s) = [("usage-store-event", "disk I/O error")].
Proof. vm_compute. by repeat split. Qed.

Example end_to_end_usage_record :
  usage_records
    (yielded
       (_run day_config sample_externals day_events
          [sample_table_str t1] new_extractor).2)
  = [ {| bucket_start_time := 1672567200000000%Z;
         ur_resource := sample_table_str t1;
         query_count := 1;
         query_freq := [("SELECT c1 FROM t1", 1)];
         user_freq := [("a@x.com", 1)];
         column_freq := [("c1", 1)];
         ur_top_n_queries := 10 |} ].
Proof. vm_compute. reflexivity. Qed.

(** * Further properties *)

(** ** Invariants of the ingestion loop *)

Section IngestInvariant.
Context (config : BigQueryV2Config) (X : Externals).
Context (P : Extractor -> Prop).

Hypothesis report_ok :
  forall f, f = incr_resources_dropped \/ (exists ent, f = report_dropped ent)
            \/ f = incr_query_hash_collisions ->
            maintains P (update_report f).
Hypothesis new_uuid_ok : maintains P (new_uuid X).
Hypothesis read_write_ok :
  forall k v, maintains P (store_write X (set_read_events k v)).
Hypothesis column_write_ok :
  forall k v, maintains P (store_write X (set_column_accesses k v)).
Hypothesis query_event_ok :
  forall q name, maintains P (store_query_event X q name).

Lemma store_usage_event_keeps event table_refs :
  maintains P (_store_usage_event config X event table_refs).
Proof using All.
  unfold _store_usage_event.
  assert (Hother : maintains P
    match query_event event with
    | Some q =>
        if truthy (job_name q)
        then store_query_event X q (default "" (job_name q))
        else ret false
    | None => ret false
    end).
  { destruct (query_event event) as [q|]; [|apply maintains_ret].
    destruct (truthy (job_name q)); [apply query_event_ok | apply maintains_ret]. }
  destruct (read_event event) as [r|]; [|exact Hother].
  destruct (in_window config r); [|exact Hother].
  unfold store_read_event.
  destruct (negb (bool_decide (_ ∈ table_refs))).
  { apply maintains_bind; [apply report_ok; auto|intros _].
    apply maintains_bind; [apply report_ok; eauto|intros _].
    apply maintains_ret. }
  destruct (is_temporary_table X _ _).
  { apply maintains_bind; [apply report_ok; eauto|intros _].
    apply maintains_ret. }
  apply maintains_bind; [apply new_uuid_ok|intros key].
  apply maintains_bind; [apply read_write_ok|intros _].
  apply maintains_bind; [|intros _; apply maintains_ret].
  apply maintains_for_each. intros field_read.
  apply maintains_bind; [apply new_uuid_ok|intros k].
  apply column_write_ok.
Qed.

Lemma ingest_events_keeps events table_refs :
  (forall e, maintains P (_report_error "store-event" e)) ->
  maintains P (_ingest_events config X events table_refs).
Proof using All.
  intros Herr. induction events as [|event events IH]; simpl.
  - apply maintains_ret.
  - apply maintains_bind; [|intros _; exact IH].
    apply maintains_try_except.
    + apply maintains_bind; [|intros ?; apply maintains_ret].
      apply store_usage_event_keeps.
    + exact Herr.
Qed.

End IngestInvariant.

(** ** The correlator, further *)

Lemma table_set_new {V : Type} k (v : V) (t : list (string * V)) :
  k ∉ t.*1 -> table_set k v t = t ++ [(k, v)].
Proof.
  induction t as [|[k' v'] t IH]; [done|].
  rewrite fmap_cons. cbn [fst]. intros [Hne Hk]%not_elem_of_cons.
  cbn [table_set]. rewrite decide_False by done. by rewrite IH.
Qed.


Lemma elem_of_table_set {V : Type} k (v : V) (t : list (string * V)) x :
  x ∈ table_set k v t -> x = (k, v) \/ x ∈ t.
Proof.
  induction t as [|[k0 v0] t IH]; simpl.
  - intros ->%list_elem_of_singleton. by left.
  - destruct (decide (k = k0)) as [->|Hk].
    + intros [->|Hx]%elem_of_cons; [by left | right; by right].
    + intros [->|Hx]%elem_of_cons; [right; left|].
      destruct (IH Hx) as [->|Hin]; [by left | right; by right].
Qed.


Section CorrelatorMore.
Context (config : BigQueryV2Config) (X : Externals).

Lemma in_window_true r :
  (start_time config <= re_timestamp r < end_time config)%Z ->
  in_window config r = true.
Proof.
  intros [H1 H2]. unfold in_window.
  apply andb_true_intro. split; [by apply Z.leb_le | by apply Z.ltb_lt].
Qed.

(** X1: a read event inside the time window whose table is not among the
    known tables, or is a temporary table, is not stored, whatever query
    event comes with it: [_store_usage_event] reports it as not processed,
    the store, the surrogate map and the counts of UUIDs and of writes stay
    as they were, the table is appended to the dropped entities, the
    counter of dropped resources goes up by one only when the table is
    unknown (not when it is known and temporary), and no error is
    counted. *)
Theorem read_of_unknown_or_temporary_table_is_dropped
  r other table_refs s :
  (start_time config <= re_timestamp r < end_time config)%Z ->
  table_str X (resource r) ∉ table_refs
  \/ is_temporary_table X (resource r) [temp_table_dataset_prefix config]
     = true ->
  let step :=
    _store_usage_event config X
      {| read_event := Some r; query_event := other |} table_refs s in
  step.1 = Returned false /\
  usage_state step.2 = usage_state s /\
  uuid_to_query step.2 = uuid_to_query s /\
  uuids_drawn step.2 = uuids_drawn s /\
  store_writes step.2 = store_writes s /\
  dropped (report step.2) = dropped (report s) ++ [table_str X (resource r)] /\
  num_usage_resources_dropped (report step.2)
  = (if bool_decide (table_str X (resource r) ∈ table_refs)
     then num_usage_resources_dropped (report s)
     else S (num_usage_resources_dropped (report s))) /\
  usage_error_count (report step.2) = usage_error_count (report s).
Proof.
  intros Hwin Hdrop step. subst step.
  unfold _store_usage_event. cbn [read_event].
  rewrite (in_window_true r Hwin). unfold store_read_event.
  destruct (bool_decide (table_str X (resource r) ∈ table_refs)) eqn:Hknown;
    cbn [negb].
  - destruct Hdrop as [Hunknown|Htemp].
    { apply bool_decide_eq_true in Hknown. done. }
    rewrite Htemp. by repeat split.
  - by repeat split.
Qed.

End CorrelatorMore.

Section StoredReads.
Context (config : BigQueryV2Config) (X : Externals).
Hypothesis no_fault : forall n, io_fault X n = None.
Context (bound : nat).
Hypothesis uuid4_inj :
  forall n m, n < bound -> m < bound -> uuid4 X n = uuid4 X m -> n = m.

Lemma drawn_key_fresh (keys : list string) d :
  d < bound ->
  (forall k, k ∈ keys -> exists n, n < d /\ k = uuid4 X n) ->
  uuid4 X d ∉ keys.
Proof using uuid4_inj.
  intros Hd Hkeys Hin. destruct (Hkeys _ Hin) as (n & Hn & Heq).
  apply uuid4_inj in Heq; lia.
Qed.

Lemma column_loop_draws key fields s :
  uuids_drawn
    (for_each
       (fun field_read =>
          do k <- new_uuid X;
          store_write X (set_column_accesses k (key, field_read)))
       fields s).2
  = uuids_drawn s + length fields.
Proof using no_fault.
  revert s. induction fields as [|f fields IH]; intros s.
  - cbn. lia.
  - cbn [for_each]. unfold bind at 1. unfold bind at 1.
    unfold new_uuid at 1, store_write at 1.
    cbn [store_writes usage_state uuid_to_query report uuids_drawn yielded].
    rewrite no_fault, IH. cbn [uuids_drawn length]. lia.
Qed.

Lemma store_read_event_draws r table_refs s :
  table_str X (resource r) ∈ table_refs ->
  is_temporary_table X (resource r) [temp_table_dataset_prefix config]
    = false ->
  uuids_drawn (store_read_event config X r table_refs s).2
  = S (uuids_drawn s) + length (fieldsRead r).
Proof using no_fault.
  intros Hknown Htemp. unfold store_read_event.
  rewrite (bool_decide_eq_true_2 _ Hknown), Htemp. cbn [negb].
  unfold bind at 1. unfold new_uuid at 1. unfold bind at 1.
  unfold store_write at 1.
  cbn [store_writes usage_state uuid_to_query report uuids_drawn yielded].
  rewrite no_fault. unfold bind at 1.
  match goal with
  | |- context [for_each ?body ?l ?s0] =>
      pose proof (column_loop_draws (uuid4 X (uuids_drawn s)) l s0) as Hd;
      destruct (for_each body l s0) as [[[]|e] s1]
  end; cbn [snd uuids_drawn] in *; exact Hd.
Qed.

Lemma column_loop key fields s :
  uuids_drawn s + length fields <= bound ->
  (forall k, k ∈ (column_accesses (usage_state s)).*1 ->
             exists n, n < uuids_drawn s /\ k = uuid4 X n) ->
  for_each
    (fun field_read =>
       do k <- new_uuid X;
       store_write X (set_column_accesses k (key, field_read)))
    fields s
  = (Returned tt,
     {| usage_state :=
          {| read_events := read_events (usage_state s);
             query_events := query_events (usage_state s);
             column_accesses :=
               column_accesses (usage_state s)
               ++ imap (fun i f => (uuid4 X (uuids_drawn s + i), (key, f)))
                       fields;
             queries := queries (usage_state s) |};
        uuid_to_query := uuid_to_query s; report := report s;
        uuids_drawn := uuids_drawn s + length fields;
        store_writes := store_writes s + length fields;
        yielded := yielded s |}).
Proof using no_fault uuid4_inj.
  revert s. induction fields as [|f fields IH]; intros s Hbound Hkeys.
  - destruct s as [[] ? ? ? ? ?]. cbn. rewrite app_nil_r, !Nat.add_0_r. done.
  - cbn [for_each]. unfold bind at 1. unfold bind at 1.
    unfold new_uuid at 1, store_write at 1. cbn [store_writes usage_state
      uuid_to_query report uuids_drawn yielded].
    rewrite no_fault.
    unfold set_column_accesses.
    rewrite table_set_new
      by (apply drawn_key_fresh; [cbn [length] in Hbound; lia | done]).
    rewrite IH.
    + cbn [usage_state read_events query_events column_accesses queries
           uuid_to_query report uuids_drawn store_writes yielded].
      rewrite <- app_assoc. cbn [app]. cbn [imap].
      rewrite Nat.add_0_r.
      f_equal. f_equal; [|cbn [length]; lia|cbn [length]; lia].
      f_equal. f_equal. f_equal. apply imap_ext. intros i x _. simpl.
      do 2 f_equal. lia.
    + cbn [uuids_drawn length] in *. lia.
    + cbn [usage_state column_accesses uuids_drawn].
      intros k. rewrite fmap_app. intros [Hk|Hk]%elem_of_app.
      * destruct (Hkeys k Hk) as (n & Hn & ->). exists n. split; [lia|done].
      * apply list_elem_of_singleton in Hk. simpl in Hk. subst k.
        exists (uuids_drawn s). split; [lia|done].
Qed.

Lemma store_read_event_accepted r table_refs s :
  S (uuids_drawn s) + length (fieldsRead r) <= bound ->
  keys_drawn X s ->
  table_str X (resource r) ∈ table_refs ->
  is_temporary_table X (resource r) [temp_table_dataset_prefix config]
    = false ->
  store_read_event config X r table_refs s
  = (Returned true,
     {| usage_state :=
          {| read_events :=
               read_events (usage_state s) ++ [(uuid4 X (uuids_drawn s), r)];
             query_events := query_events (usage_state s);
             column_accesses :=
               column_accesses (usage_state s)
               ++ imap (fun i f =>
                          (uuid4 X (S (uuids_drawn s) + i),
                           (uuid4 X (uuids_drawn s), f)))
                       (fieldsRead r);
             queries := queries (usage_state s) |};
        uuid_to_query := uuid_to_query s; report := report s;
        uuids_drawn := S (uuids_drawn s) + length (fieldsRead r);
        store_writes := S (store_writes s) + length (fieldsRead r);
        yielded := yielded s |}).
Proof using no_fault uuid4_inj.
  intros Hbound [Hreads Hcols] Hknown Htemp. unfold store_read_event.
  rewrite (bool_decide_eq_true_2 _ Hknown), Htemp. cbn [negb].
  unfold bind at 1. unfold new_uuid at 1. unfold bind at 1.
  unfold store_write at 1.
  cbn [store_writes usage_state uuid_to_query report uuids_drawn yielded].
  rewrite no_fault. unfold set_read_events.
  rewrite table_set_new by (apply drawn_key_fresh; [lia | done]).
  unfold bind at 1. rewrite column_loop.
  - reflexivity.
  - cbn [uuids_drawn]. lia.
  - cbn [usage_state column_accesses uuids_drawn]. intros k Hk.
    destruct (Hcols k Hk) as (n & Hn & ->). exists n. split; [lia|done].
Qed.

Lemma store_query_event_reads q name s :
  let s' := (store_query_event X q name s).2 in
  read_events (usage_state s') = read_events (usage_state s) /\
  column_accesses (usage_state s') = column_accesses (usage_state s) /\
  uuids_drawn s <= uuids_drawn s'.
Proof.
  unfold store_query_event, queries_get, bind, ret, store_write, new_uuid,
    set_uuid_to_query, update_report. simpl.
  repeat (case_match; simplify_eq/=); repeat split; auto.
Qed.

Lemma keys_drawn_mono s s' :
  read_events (usage_state s') = read_events (usage_state s) ->
  column_accesses (usage_state s') = column_accesses (usage_state s) ->
  uuids_drawn s <= uuids_drawn s' ->
  keys_drawn X s -> keys_drawn X s'.
Proof.
  intros Hr Hc Hd [H1 H2]. split; intros k Hk.
  - rewrite Hr in Hk. destruct (H1 k Hk) as (n & Hn & ->).
    exists n. split; [lia|done].
  - rewrite Hc in Hk. destruct (H2 k Hk) as (n & Hn & ->).
    exists n. split; [lia|done].
Qed.

Lemma accepted_reads_one event table_refs :
  accepted_reads config X table_refs [event]
  = match read_event event with
    | Some r => if accepts_read config X table_refs r then [r] else []
    | None => []
    end.
Proof.
  unfold accepted_reads. cbn.
  destruct (read_event event) as [r|]; [|done].
  by destruct (accepts_read config X table_refs r).
Qed.

Lemma store_usage_event_reads event table_refs s :
  uuids_drawn (_store_usage_event config X event table_refs s).2 <= bound ->
  keys_drawn X s ->
  let s' := (_store_usage_event config X event table_refs s).2 in
  keys_drawn X s' /\
  (read_events (usage_state s')).*2
  = (read_events (usage_state s)).*2
    ++ accepted_reads config X table_refs [event].
Proof using no_fault uuid4_inj.
  intros Hbound Hkeys. rewrite accepted_reads_one.
  revert Hbound. unfold _store_usage_event, accepts_read.
  assert (Hother :
    let s' :=
      (match query_event event with
       | Some q =>
           if truthy (job_name q)
           then store_query_event X q (default "" (job_name q))
           else ret false
       | None => ret false
       end s).2 in
    keys_drawn X s' /\
    (read_events (usage_state s')).*2 = (read_events (usage_state s)).*2 ++ []).
  { rewrite app_nil_r.
    destruct (query_event event) as [q|]; [|done].
    destruct (truthy (job_name q)); [|done].
    destruct (store_query_event_reads q (default "" (job_name q)) s)
      as (Hr & Hc & Hd).
    split; [by eapply keys_drawn_mono | by rewrite Hr]. }
  destruct (read_event event) as [r|]; [|intros _; exact Hother].
  destruct (in_window config r); [|intros _; exact Hother].
  cbn [andb].
  destruct (bool_decide (table_str X (resource r) ∈ table_refs)) eqn:Hknown.
  2:{ intros _. unfold store_read_event. rewrite Hknown. cbn [negb andb].
      rewrite app_nil_r. done. }
  destruct (is_temporary_table X (resource r) _) eqn:Htemp.
  { intros _. unfold store_read_event. rewrite Hknown, Htemp.
    cbn [negb andb]. rewrite app_nil_r. done. }
  apply bool_decide_eq_true in Hknown.
  rewrite (store_read_event_draws r table_refs s Hknown Htemp).
  intros Hbound. cbn [negb andb].
  rewrite (store_read_event_accepted r table_refs s Hbound Hkeys Hknown Htemp). cbn [snd usage_state read_events]. split.
  - destruct Hkeys as [Hreads Hcols].
    split; cbn [usage_state read_events column_accesses uuids_drawn];
      intros k; rewrite fmap_app; intros [Hk|Hk]%elem_of_app.
    + destruct (Hreads k Hk) as (n & Hn & ->). exists n. split; [lia|done].
    + apply list_elem_of_singleton in Hk. simpl in Hk. subst k.
      exists (uuids_drawn s). split; [lia|done].
    + destruct (Hcols k Hk) as (n & Hn & ->). exists n. split; [lia|done].
    + apply list_elem_of_fmap in Hk as ([k' v] & -> & Hk).
      apply elem_of_lookup_imap in Hk as (i & f & [= -> ->] & Hi).
      apply lookup_lt_Some in Hi.
      exists (S (uuids_drawn s) + i). split; [lia|done].
  - by rewrite fmap_app.
Qed.

Lemma accepted_reads_cons event events table_refs :
  accepted_reads config X table_refs (event :: events)
  = accepted_reads config X table_refs [event]
    ++ accepted_reads config X table_refs events.
Proof.
  unfold accepted_reads. cbn.
  by destruct (match read_event event with Some _ => _ | None => _ end).
Qed.

Lemma imap_column_values {K : Type} (g : nat -> K) (k : string)
  (fields : list string) :
  (imap (fun i f => (g i, (k, f))) fields).*2 = map (pair k) fields.
Proof.
  revert g. induction fields as [|f fields IH]; intros g; [done|].
  cbn [imap]. rewrite fmap_cons. cbn [snd map]. f_equal. apply (IH (g ∘ S)).
Qed.

Lemma store_usage_event_columns event table_refs s :
  uuids_drawn (_store_usage_event config X event table_refs s).2 <= bound ->
  keys_drawn X s ->
  let s' := (_store_usage_event config X event table_refs s).2 in
  (column_accesses (usage_state s)).*2
  = flat_map (fun row : string * ReadEvent => map (pair row.1) (fieldsRead row.2))
      (read_events (usage_state s)) ->
  (column_accesses (usage_state s')).*2
  = flat_map (fun row : string * ReadEvent => map (pair row.1) (fieldsRead row.2))
      (read_events (usage_state s')).
Proof using no_fault uuid4_inj.
  intros Hbound Hkeys. revert Hbound. unfold _store_usage_event.
  assert (Hother :
    let s' :=
      (match query_event event with
       | Some q =>
           if truthy (job_name q)
           then store_query_event X q (default "" (job_name q))
           else ret false
       | None => ret false
       end s).2 in
    (column_accesses (usage_state s)).*2
    = flat_map (fun row : string * ReadEvent =>
                  map (pair row.1) (fieldsRead row.2))
        (read_events (usage_state s)) ->
    (column_accesses (usage_state s')).*2
    = flat_map (fun row : string * ReadEvent =>
                  map (pair row.1) (fieldsRead row.2))
        (read_events (usage_state s'))).
  { destruct (query_event event) as [q|]; [|done].
    destruct (truthy (job_name q)); [|done].
    destruct (store_query_event_reads q (default "" (job_name q)) s)
      as (Hr & Hc & Hd).
    cbn zeta. by rewrite Hr, Hc. }
  destruct (read_event event) as [r|]; [|intros _; exact Hother].
  destruct (in_window config r); [|intros _; exact Hother].
  destruct (bool_decide (table_str X (resource r) ∈ table_refs)) eqn:Hknown.
  2:{ intros _. unfold store_read_event. by rewrite Hknown. }
  destruct (is_temporary_table X (resource r)
              [temp_table_dataset_prefix config]) eqn:Htemp.
  { intros _. unfold store_read_event. by rewrite Hknown, Htemp. }
  apply bool_decide_eq_true in Hknown.
  rewrite (store_read_event_draws r table_refs s Hknown Htemp).
  intros Hbound.
  rewrite (store_read_event_accepted r table_refs s Hbound Hkeys Hknown Htemp). cbn [snd usage_state read_events column_accesses].
  intros Hcols. rewrite fmap_app, flat_map_app, Hcols. f_equal.
  cbn [flat_map fst snd]. rewrite app_nil_r. apply imap_column_values.
Qed.

Lemma ingest_events_cons event events table_refs s :
  exists s1,
    _ingest_events config X (event :: events) table_refs s
    = _ingest_events config X events table_refs s1 /\
    usage_state s1
    = usage_state (_store_usage_event config X event table_refs s).2 /\
    uuids_drawn s1
    = uuids_drawn (_store_usage_event config X event table_refs s).2.
Proof.
  cbn [_ingest_events]. unfold bind at 1, try_except, bind, ret.
  destruct (_store_usage_event config X event table_refs s) as [[b|e] s1].
  - by exists s1.
  - rewrite report_error_eq. by eexists.
Qed.

Lemma store_usage_event_draws_mono event table_refs s :
  uuids_drawn s <= uuids_drawn (_store_usage_event config X event table_refs s).2.
Proof.
  apply (store_usage_event_keeps config X (fun s' => uuids_drawn s <= uuids_drawn s'));
    try (intros; intros s0 H0; exact H0); [..|lia].
  - intros s0 H0. cbn. lia.
  - intros k v s0 H0. unfold store_write.
    by destruct (io_fault X (store_writes s0)).
  - intros k v s0 H0. unfold store_write.
    by destruct (io_fault X (store_writes s0)).
  - intros q name s0 H0.
    destruct (store_query_event_reads q name s0) as (_ & _ & Hd).
    cbn zeta in Hd. lia.
Qed.

Lemma ingest_events_draws_mono events table_refs s :
  uuids_drawn s <= uuids_drawn (_ingest_events config X events table_refs s).2.
Proof.
  revert s. induction events as [|event events IH]; intros s; [done|].
  destruct (ingest_events_cons event events table_refs s)
    as (s1 & -> & Hstate & Hdrawn).
  pose proof (store_usage_event_draws_mono event table_refs s).
  specialize (IH s1). lia.
Qed.

Lemma stored_reads_bounded events table_refs s :
  uuids_drawn (_ingest_events config X events table_refs s).2 <= bound ->
  keys_drawn X s ->
  let s' := (_ingest_events config X events table_refs s).2 in
  (read_events (usage_state s')).*2
  = (read_events (usage_state s)).*2
    ++ accepted_reads config X table_refs events /\
  ((column_accesses (usage_state s)).*2
   = flat_map (fun row : string * ReadEvent =>
                 map (pair row.1) (fieldsRead row.2))
       (read_events (usage_state s)) ->
   (column_accesses (usage_state s')).*2
   = flat_map (fun row : string * ReadEvent =>
                 map (pair row.1) (fieldsRead row.2))
       (read_events (usage_state s'))).
Proof using no_fault uuid4_inj.
  revert s. induction events as [|event events IH]; intros s Hbound Hkeys.
  - cbn. by rewrite app_nil_r.
  - revert Hbound.
    destruct (ingest_events_cons event events table_refs s)
      as (s1 & -> & Hstate & Hdrawn). intros Hbound.
    assert (Hb1 :
      uuids_drawn (_store_usage_event config X event table_refs s).2 <= bound).
    { pose proof (ingest_events_draws_mono events table_refs s1). lia. }
    destruct (store_usage_event_reads event table_refs s Hb1 Hkeys)
      as [Hkeys1 Hreads1].
    pose proof (store_usage_event_columns event table_refs s Hb1 Hkeys)
      as Hcols1.
    assert (Hkeys' : keys_drawn X s1).
    { eapply keys_drawn_mono; [..|exact Hkeys1]; rewrite ?Hstate; auto; lia. }
    destruct (IH s1 Hbound Hkeys') as [IHr IHc]. cbn zeta in *. split.
    + rewrite IHr, Hstate, Hreads1, (accepted_reads_cons event events).
      by rewrite app_assoc.
    + intros Hcols. apply IHc. rewrite Hstate. by apply Hcols1.
Qed.

End StoredReads.

(** X2: when no store write fails, the keys already in the read tables are
    UUIDs drawn earlier and the UUIDs drawn up to the end of the ingestion
    are distinct, the read events that [_ingest_events] adds to the
    ReadEvent table are exactly the read events of the stream that lie in
    the time window, on a known table that is not temporary: each once, in
    the order of the stream, after those the table already held. *)
Theorem stored_reads_are_the_accepted_reads config X events table_refs s :
  (forall n, io_fault X n = None) ->
  let s' := (_ingest_events config X events table_refs s).2 in
  (forall n m, n < uuids_drawn s' -> m < uuids_drawn s' ->
               uuid4 X n = uuid4 X m -> n = m) ->
  keys_drawn X s ->
  (read_events (usage_state s')).*2
  = (read_events (usage_state s)).*2
    ++ accepted_reads config X table_refs events.
Proof.
  intros Hfault s' Hinj Hkeys.
  by apply (stored_reads_bounded config X Hfault (uuids_drawn s') Hinj).
Qed.

(** X3: under the same conditions the column-access table keeps following
    the ReadEvent table through [_ingest_events]: it holds, in order, one
    row (key of the read, field) for every field of every stored read. *)
Theorem column_accesses_follow_the_stored_reads config X events table_refs s :
  (forall n, io_fault X n = None) ->
  let s' := (_ingest_events config X events table_refs s).2 in
  (forall n m, n < uuids_drawn s' -> m < uuids_drawn s' ->
               uuid4 X n = uuid4 X m -> n = m) ->
  keys_drawn X s ->
  (column_accesses (usage_state s)).*2
  = flat_map (fun row : string * ReadEvent => map (pair row.1) (fieldsRead row.2))
      (read_events (usage_state s)) ->
  (column_accesses (usage_state s')).*2
  = flat_map (fun row : string * ReadEvent => map (pair row.1) (fieldsRead row.2))
      (read_events (usage_state s')).
Proof.
  intros Hfault s' Hinj Hkeys.
  by apply (stored_reads_bounded config X Hfault (uuids_drawn s') Hinj).
Qed.

Section Integrity.
Context (config : BigQueryV2Config) (X : Externals).

Lemma references_held_ingest events table_refs :
  maintains references_held (_ingest_events config X events table_refs).
Proof.
  apply ingest_events_keeps; try (intros; intros s Hs; exact Hs).
  - intros k v s H. unfold store_write.
    destruct (io_fault X (store_writes s)); exact H.
  - intros k v s H. unfold store_write.
    destruct (io_fault X (store_writes s)); exact H.
  - intros q name s H.
    unfold store_query_event, queries_get, bind, ret, store_write, new_uuid,
      set_uuid_to_query, update_report. simpl.
    set (text := str_prefix (MAX_QUERY_LENGTH X) (query q)).
    set (h := md5_hexdigest X text).
    destruct (bool_decide (default text (queries (usage_state s) !! h) = text));
      simpl.
    + destruct (io_fault X (store_writes s)); simpl; [exact H|].
      destruct (io_fault X (S (store_writes s))); simpl.
      * intros name' q' Hin. destruct (H name' q' Hin) as [Hq|Hu]; [left|by right].
        simpl. by apply lookup_insert_is_Some'; right.
      * intros name' q' Hin. simpl in Hin.
        apply elem_of_table_set in Hin as [[= -> ->]|Hin].
        { left. simpl. rewrite lookup_insert_eq. by eexists. }
        destruct (H name' q' Hin) as [Hq|Hu]; [left|by right].
        simpl. by apply lookup_insert_is_Some'; right.
    + destruct (io_fault X (store_writes s)); simpl.
      * intros name' q' Hin. destruct (H name' q' Hin) as [Hq|Hu]; [by left|right].
        simpl. by apply lookup_insert_is_Some'; right.
      * intros name' q' Hin. simpl in Hin.
        apply elem_of_table_set in Hin as [[= -> ->]|Hin].
        { right. simpl. rewrite lookup_insert_eq. by eexists. }
        destruct (H name' q' Hin) as [Hq|Hu]; [by left|right].
        simpl. by apply lookup_insert_is_Some'; right.
Qed.


End Integrity.

Section IngestMore.
Context (config : BigQueryV2Config) (X : Externals).

Lemma store_usage_event_returns event table_refs s :
  (forall n, io_fault X n = None) ->
  exists b s', _store_usage_event config X event table_refs s = (Returned b, s').
Proof.
  intros Hfault.
  pose proof (store_usage_event_faults_only config X event table_refs s) as H.
  destruct (_store_usage_event config X event table_refs s) as [[b|e] s'].
  - by eexists _, _.
  - destruct H as (message & _ & _ & Hlast & _). by rewrite Hfault in Hlast.
Qed.

Lemma store_usage_event_error_counts event table_refs s :
  let s' := (_store_usage_event config X event table_refs s).2 in
  usage_error_count (report s') = usage_error_count (report s) /\
  warnings (report s') = warnings (report s).
Proof.
  apply (store_usage_event_keeps config X
           (fun s' => usage_error_count (report s') = usage_error_count (report s)
                      /\ warnings (report s') = warnings (report s)));
    [..|done].
  - intros f [->|[[ent ->]| ->]] s0 H0; exact H0.
  - intros s0 H0. exact H0.
  - intros k v s0 H0. unfold store_write.
    by destruct (io_fault X (store_writes s0)).
  - intros k v s0 H0. unfold store_write.
    by destruct (io_fault X (store_writes s0)).
  - intros q name s0 H0.
    unfold store_query_event, queries_get, bind, ret, store_write, new_uuid,
      set_uuid_to_query, update_report. simpl.
    repeat (case_match; simplify_eq/=); done.
Qed.

(** X4: [_ingest_events] counts errors under the label "store-event" only:
    the count of every other label is as before; and when no store write
    fails, the error counts and the warnings are all as before. *)
Theorem ingestion_counts_errors_only_under_store_event events table_refs s :
  let s' := (_ingest_events config X events table_refs s).2 in
  (forall label, label <> "store-event" ->
     usage_error_count (report s') !! label
     = usage_error_count (report s) !! label) /\
  ((forall n, io_fault X n = None) ->
     usage_error_count (report s') = usage_error_count (report s) /\
     warnings (report s') = warnings (report s)).
Proof.
  split.
  - intros label Hlabel. revert s.
    induction events as [|event events IH]; intros s; [done|].
    cbn [_ingest_events]. unfold bind at 1, try_except, bind, ret.
    pose proof (store_usage_event_error_counts event table_refs s) as [Hc _].
    destruct (_store_usage_event config X event table_refs s) as [[b|e] s1];
      cbn [snd] in Hc.
    + by rewrite IH, Hc.
    + rewrite report_error_eq, IH. cbn [report usage_error_count].
      unfold incr_usage_error_count, report_warning, counter_incr. simpl.
      rewrite lookup_insert_ne by done. by rewrite Hc.
  - intros Hfault. revert s.
    induction events as [|event events IH]; intros s; [done|].
    cbn [_ingest_events]. unfold bind at 1, try_except, bind, ret.
    pose proof (store_usage_event_error_counts event table_refs s) as [Hc Hw].
    destruct (store_usage_event_returns event table_refs s Hfault)
      as (b & s1 & Hstep).
    rewrite Hstep in *. cbn [snd] in *.
    destruct (IH s1) as [IHc IHw]. by rewrite IHc, IHw, Hc, Hw.
Qed.

(** X5: ingesting a stream is ingesting its first part and then the rest
    from the state the first part left: no event makes the loop stop
    early. *)
Theorem ingestion_of_a_stream_in_two_batches batch1 batch2 table_refs s :
  _ingest_events config X (batch1 ++ batch2) table_refs s
  = _ingest_events config X batch2 table_refs
      (_ingest_events config X batch1 table_refs s).2.
Proof.
  revert s. induction batch1 as [|event batch1 IH]; intros s; [done|].
  rewrite <- app_comm_cons.
  cbn [_ingest_events]. unfold bind at 1 3.
  destruct (try_except _ _ s) as [[[]|e] s1] eqn:Hstep.
  - apply IH.
  - exfalso. revert Hstep. unfold try_except, bind, ret.
    destruct (_store_usage_event config X event table_refs s) as [[b|e'] s2];
      [discriminate|]. by rewrite report_error_eq.
Qed.

(** X6: a text held by the QueryText table under some key is still held
    under that key after [_ingest_events], whatever the events are. *)
Theorem hash_entries_are_never_overwritten events table_refs s h text :
  queries (usage_state s) !! h = Some text ->
  queries (usage_state (_ingest_events config X events table_refs s).2) !! h
  = Some text.
Proof. apply ingest_events_keeps_text. Qed.


End IngestMore.

(** ** The aggregation, further *)

Section JoinsAndGroups.
Context {A B K : Type} `{EqDecision K}.

Lemma insert_sorted_Permutation (le : A -> A -> bool) x l :
  insert_sorted le x l ≡ₚ x :: l.
Proof.
  induction l as [|y l IH]; [done|].
  cbn [insert_sorted]. destruct (le x y); [done|].
  rewrite IH. apply Permutation_swap.
Qed.

Lemma order_by_Permutation (le : A -> A -> bool) l : order_by le l ≡ₚ l.
Proof.
  unfold order_by. induction l as [|x l IH]; [done|].
  cbn [fold_right]. rewrite insert_sorted_Permutation. by rewrite IH.
Qed.


Lemma elem_of_left_join (on : A -> B -> bool) l r x :
  x ∈ left_join on l r -> x.1 ∈ l.
Proof.
  unfold left_join. rewrite list_elem_of_In, in_flat_map.
  intros (a & Ha & Hx). apply list_elem_of_In in Ha.
  destruct (List.filter (on a) r) as [|b bs].
  - destruct Hx as [<-|[]]. exact Ha.
  - apply in_map_iff in Hx as (b' & <- & _). exact Ha.
Qed.

Lemma left_join_fst (on : A -> B -> bool) l r :
  (forall a, length (List.filter (on a) r) <= 1) ->
  map fst (left_join on l r) = l.
Proof.
  intros Hone. unfold left_join. induction l as [|a l IH]; [done|].
  cbn [flat_map]. rewrite map_app, IH. specialize (Hone a).
  destruct (List.filter (on a) r) as [|b [|b' bs]]; [done|done|].
  cbn [length] in Hone. lia.
Qed.

Lemma filter_key_at_most_one (r : list (K * B)) k :
  NoDup r.*1 ->
  length (List.filter (fun y : K * B => bool_decide (k = y.1)) r) <= 1.
Proof.
  induction r as [|[k' b] r IH]; [cbn; lia|].
  rewrite fmap_cons. cbn [fst]. intros [Hk Hnd]%NoDup_cons.
  cbn [List.filter fst]. destruct (decide (k = k')) as [->|Hne].
  - rewrite bool_decide_eq_true_2 by done. cbn [length].
    assert (List.filter (fun y : K * B => bool_decide (k' = y.1)) r = [])
      as ->; [|cbn; lia].
    clear IH Hnd. induction r as [|[k0 b0] r IH]; [done|].
    rewrite fmap_cons in Hk. cbn [fst] in Hk.
    apply not_elem_of_cons in Hk as [Hne Hk].
    cbn [List.filter fst]. rewrite bool_decide_eq_false_2 by done. auto.
  - rewrite bool_decide_eq_false_2 by done. auto.
Qed.

Lemma add_to_group_total k (a : A) (groups : list (K * list A)) :
  sum_list_with (fun g : K * list A => length g.2) (add_to_group k a groups)
  = S (sum_list_with (fun g : K * list A => length g.2) groups).
Proof.
  induction groups as [|[k' rows] groups IH]; [done|].
  cbn [add_to_group]. destruct (decide (k = k')).
  - cbn [sum_list_with snd]. rewrite length_app. cbn [length]. lia.
  - cbn [sum_list_with snd]. rewrite IH. lia.
Qed.

Lemma group_by_total (key : A -> K) rows :
  sum_list_with (fun g : K * list A => length g.2) (group_by key rows)
  = length rows.
Proof.
  unfold group_by.
  assert (Hgen : forall groups,
    sum_list_with (fun g : K * list A => length g.2)
      (fold_left (fun gs a => add_to_group (key a) a gs) rows groups)
    = sum_list_with (fun g : K * list A => length g.2) groups + length rows).
  { induction rows as [|a rows IH]; intros groups; cbn [fold_left length].
    - lia.
    - rewrite IH, add_to_group_total. lia. }
  by rewrite Hgen.
Qed.

Lemma elem_of_add_to_group_keys k (a : A) (groups : list (K * list A)) k' :
  k' ∈ (add_to_group k a groups).*1 <-> k' = k \/ k' ∈ groups.*1.
Proof.
  rewrite add_to_group_keys. destruct (decide (k ∈ groups.*1)).
  - split; [by right|]. by intros [->|?].
  - rewrite elem_of_app, list_elem_of_singleton. tauto.
Qed.

Lemma elem_of_group_by_keys (key : A -> K) rows k :
  k ∈ (group_by key rows).*1 <-> exists a, a ∈ rows /\ key a = k.
Proof.
  unfold group_by.
  assert (Hgen : forall groups,
    k ∈ (fold_left (fun gs a => add_to_group (key a) a gs) rows groups).*1
    <-> k ∈ groups.*1 \/ exists a, a ∈ rows /\ key a = k).
  { induction rows as [|a rows IH]; intros groups; cbn [fold_left].
    - split; [by left|]. intros [?|(a & Ha & _)]; [done|].
      by apply elem_of_nil in Ha.
    - rewrite IH, elem_of_add_to_group_keys. split.
      + intros [[->|?]|(a' & Ha' & <-)]; [right|by left|right].
        * exists a. split; [left|done].
        * exists a'. split; [by right|done].
      + intros [?|(a' & [->|Ha']%elem_of_cons & <-)]; [left; by right|..].
        * left. by left.
        * right. by exists a'. }
  rewrite Hgen. split; [intros [Hn|?]; [by apply elem_of_nil in Hn|done]|by right].
Qed.

End JoinsAndGroups.

Section Statistics.
Context (X : Externals).

Lemma sum_list_with_map {A B : Type} (f : B -> nat) (g : A -> B) l :
  sum_list_with f (map g l) = sum_list_with (fun a => f (g a)) l.
Proof. induction l as [|a l IH]; [done|]. cbn. by rewrite IH. Qed.

Lemma freq_groups_keys rows : NoDup (freq_groups rows).*1.
Proof.
  unfold freq_groups.
  replace ((map _ (group_by _ rows)).*1) with ((group_by
    (fun row : Z * string * string * nat => (row.1.1.1, row.1.1.2)) rows).*1).
  - apply group_by_NoDup.
  - rewrite <- list_fmap_compose. done.
Qed.

Lemma subquery_b_keys top_n u : NoDup (subquery_b X top_n u).*1.
Proof. apply freq_groups_keys. Qed.

Lemma subquery_c_keys u : NoDup (subquery_c X u).*1.
Proof. apply freq_groups_keys. Qed.

Lemma subquery_d_keys u : NoDup (subquery_d X u).*1.
Proof. apply freq_groups_keys. Qed.

(** The rows of subquery [a] behind the rows of [usage_statistics]: the
    three LEFT JOINs neither drop nor repeat a row of [a]. *)
Lemma usage_statistics_rows top_n u :
  map (fun e => (us_timestamp e, us_resource e, us_query_count e))
      (usage_statistics X top_n u)
  ≡ₚ subquery_a X u.
Proof.
  unfold usage_statistics. rewrite map_map. cbn [us_timestamp us_resource
    us_query_count].
  erewrite map_ext; last first.
  { intros [[[[[ts res] count] b] c] d]. cbn [fst snd].
    instantiate (1 := fun row => row.1.1.1). reflexivity. }
  rewrite (Permutation_map _ (order_by_Permutation _ _)).
  rewrite <- (map_map fst (fun x => x.1.1)).
  rewrite left_join_fst
    by (intros a; apply filter_key_at_most_one, subquery_d_keys).
  rewrite <- (map_map fst fst).
  rewrite left_join_fst
    by (intros a; apply filter_key_at_most_one, subquery_c_keys).
  rewrite left_join_fst
    by (intros a; apply filter_key_at_most_one, subquery_b_keys).
  done.
Qed.

Lemma subquery_a_keys u :
  map fst (subquery_a X u)
  = (group_by (fun j : (string * ReadEvent) * (string * QueryEvent) =>
                 (r_timestamp X j.1, r_resource X j.1))
              (joined_reads u)).*1.
Proof. unfold subquery_a. rewrite map_map. done. Qed.

(** X8: [usage_statistics] gives one record per (bucket, resource): no two
    records share both, and there is a record for a bucket and a resource
    exactly when some read event of that bucket and resource has a query
    event of its job. *)
Theorem one_usage_record_per_bucket_and_resource top_n u :
  NoDup (map (fun e => (us_timestamp e, us_resource e))
             (usage_statistics X top_n u)) /\
  (forall bucket res,
     (exists e, e ∈ usage_statistics X top_n u
                /\ us_timestamp e = bucket /\ us_resource e = res)
     <-> (exists j, j ∈ joined_reads u
                    /\ r_timestamp X j.1 = bucket /\ r_resource X j.1 = res)).
Proof.
  assert (Hkeys :
    map (fun e => (us_timestamp e, us_resource e)) (usage_statistics X top_n u)
    ≡ₚ (group_by (fun j : (string * ReadEvent) * (string * QueryEvent) =>
                    (r_timestamp X j.1, r_resource X j.1))
                 (joined_reads u)).*1).
  { rewrite <- subquery_a_keys, <- usage_statistics_rows.
    by rewrite map_map. }
  split.
  - rewrite Hkeys. apply group_by_NoDup.
  - intros bucket res.
    transitivity ((bucket, res)
      ∈ map (fun e => (us_timestamp e, us_resource e))
            (usage_statistics X top_n u)).
    + rewrite list_elem_of_In, in_map_iff. split.
      * intros (e & He & <- & <-). exists e. by rewrite <- list_elem_of_In.
      * intros (e & [= <- <-] & He). exists e. by rewrite list_elem_of_In.
    + rewrite Hkeys, elem_of_group_by_keys. split.
      * intros (j & Hj & [= <- <-]). by exists j.
      * intros (j & Hj & <- & <-). by exists j.
Qed.

(** X9: the query counts of the records of [usage_statistics] add up to
    the number of (read event, query event) pairs of the join on the job
    name, whatever [top_n] is. *)
Theorem query_counts_add_up_to_the_joined_reads top_n u :
  sum_list_with us_query_count (usage_statistics X top_n u)
  = length (joined_reads u).
Proof.
  transitivity (sum_list_with snd
    (map (fun e => (us_timestamp e, us_resource e, us_query_count e))
         (usage_statistics X top_n u))).
  { by rewrite sum_list_with_map. }
  rewrite usage_statistics_rows. unfold subquery_a.
  rewrite sum_list_with_map. cbn [snd]. apply group_by_total.
Qed.

(** X10: when no stored read event has a stored query event of its job,
    [usage_statistics] gives no record at all, however many reads are
    stored. *)
Theorem no_usage_record_without_a_joined_read top_n u :
  (forall r q, r ∈ read_events u -> q ∈ query_events u ->
               jobName r.2 <> Some q.1) ->
  usage_statistics X top_n u = [].
Proof.
  intros Hnone.
  assert (Hjoin : joined_reads u = []).
  { unfold joined_reads, inner_join.
    assert (Hall : forall reads, (forall r, r ∈ reads -> r ∈ read_events u) ->
      flat_map (fun a => map (pair a) (List.filter (on_job a) (query_events u)))
        reads = []).
    { induction reads as [|r reads IH]; intros Hsub; [done|].
      cbn [flat_map]. rewrite IH by (intros; apply Hsub; by right).
      assert (List.filter (on_job r) (query_events u) = []) as ->; [|done].
      assert (Hq : forall qs, (forall q, q ∈ qs -> q ∈ query_events u) ->
                List.filter (on_job r) qs = []).
      { induction qs as [|q qs IHq]; intros Hsubq; [done|].
        cbn [List.filter]. unfold on_job at 1, r_name.
        rewrite bool_decide_eq_false_2.
        - apply IHq. intros; apply Hsubq; by right.
        - apply Hnone; [apply Hsub; left | apply Hsubq; left]. }
      by apply Hq. }
    by apply Hall. }
  assert (Ha : subquery_a X u = []) by (unfold subquery_a; by rewrite Hjoin).
  unfold usage_statistics. rewrite Ha. done.
Qed.


End Statistics.

Lemma sum_list_with_ext {A : Type} (f g : A -> nat) l :
  (forall a, f a = g a) -> sum_list_with f l = sum_list_with g l.
Proof.
  intros Hfg. induction l as [|a l IH]; [done|]. cbn. by rewrite Hfg, IH.
Qed.

Section Weights.
Context {A K : Type} `{EqDecision K}.

Lemma add_to_group_weighted (w : K -> A -> nat) k a
  (groups : list (K * list A)) :
  sum_list_with (fun g : K * list A => sum_list_with (w g.1) g.2)
                (add_to_group k a groups)
  = sum_list_with (fun g : K * list A => sum_list_with (w g.1) g.2) groups
    + w k a.
Proof.
  induction groups as [|[k' rows] groups IH]; [cbn; lia|].
  cbn [add_to_group]. destruct (decide (k = k')) as [->|Hne].
  - cbn [sum_list_with fst snd]. rewrite sum_list_with_app. cbn. lia.
  - cbn [sum_list_with fst snd]. rewrite IH. lia.
Qed.

(** A sum over the rows can be taken group by group. *)
Lemma group_by_weighted (w : K -> A -> nat) (key : A -> K) rows :
  sum_list_with (fun g : K * list A => sum_list_with (w g.1) g.2)
                (group_by key rows)
  = sum_list_with (fun a => w (key a) a) rows.
Proof.
  unfold group_by.
  assert (Hgen : forall groups,
    sum_list_with (fun g : K * list A => sum_list_with (w g.1) g.2)
      (fold_left (fun gs a => add_to_group (key a) a gs) rows groups)
    = sum_list_with (fun g : K * list A => sum_list_with (w g.1) g.2) groups
      + sum_list_with (fun a => w (key a) a) rows).
  { induction rows as [|a rows IH]; intros groups; cbn [fold_left].
    - cbn. lia.
    - rewrite IH, add_to_group_weighted. cbn [sum_list_with]. lia. }
  by rewrite Hgen.
Qed.

Lemma sum_at_key_in {B : Type} (F : B -> nat) (groups : list (K * B)) k b :
  NoDup groups.*1 -> (k, b) ∈ groups ->
  sum_list_with (fun g : K * B => if decide (g.1 = k) then F g.2 else 0) groups
  = F b.
Proof.
  induction groups as [|[k' b'] groups IH]; intros Hnd Hin.
  - by apply elem_of_nil in Hin.
  - rewrite fmap_cons in Hnd. cbn [fst] in Hnd.
    apply NoDup_cons in Hnd as [Hk Hnd].
    cbn [sum_list_with fst snd].
    apply elem_of_cons in Hin as [[= <- <-]|Hin].
    + rewrite decide_True by done.
      assert (sum_list_with
                (fun g : K * B => if decide (g.1 = k) then F g.2 else 0) groups
              = 0) as ->; [|lia].
      clear IH Hnd. induction groups as [|[k0 b0] groups IH]; [done|].
      rewrite fmap_cons in Hk. cbn [fst] in Hk.
      apply not_elem_of_cons in Hk as [Hne Hk].
      cbn [sum_list_with fst snd]. rewrite decide_False by done. auto.
    + rewrite decide_False.
      * rewrite IH by done. lia.
      * intros ->. apply Hk. apply list_elem_of_fmap. by exists (k, b).
Qed.

Lemma sum_at_key_out {B : Type} (F : B -> nat) (groups : list (K * B)) k :
  k ∉ groups.*1 ->
  sum_list_with (fun g : K * B => if decide (g.1 = k) then F g.2 else 0) groups
  = 0.
Proof.
  induction groups as [|[k0 b0] groups IH]; [done|].
  rewrite fmap_cons. cbn [fst]. intros [Hne Hk]%not_elem_of_cons.
  cbn [sum_list_with fst snd]. rewrite decide_False by done. auto.
Qed.

Lemma sum_list_with_if (c : bool) (f : A -> nat) l :
  sum_list_with (fun a => if c then f a else 0) l
  = if c then sum_list_with f l else 0.
Proof.
  destruct c; [done|]. induction l as [|a l IH]; [done|]. cbn. exact IH.
Qed.

Lemma count_as_filter (p : A -> bool) l :
  sum_list_with (fun a => if p a then 1 else 0) l = length (List.filter p l).
Proof.
  induction l as [|a l IH]; [done|].
  cbn [sum_list_with List.filter]. destruct (p a); cbn [length]; lia.
Qed.

End Weights.

Section Frequencies.
Context {A : Type} (key : A -> Z * string * string) (rows : list A).

(** The counts of a frequency list add up to the number of rows of its
    (timestamp, resource) group. *)
Lemma frequencies_add_up k o :
  match o with
  | Some g =>
      g ∈ freq_groups (order_by freq_order (counted key rows)) /\ g.1 = k
  | None =>
      k ∉ (freq_groups (order_by freq_order (counted key rows))).*1
  end ->
  sum_list_with snd (freq_or_empty o)
  = length (List.filter (fun a => bool_decide ((key a).1 = k)) rows).
Proof.
  set (ordered := order_by freq_order (counted key rows)).
  set (key2 := fun row : Z * string * string * nat => (row.1.1.1, row.1.1.2)).
  assert (Hkey2 : forall row : Z * string * string * nat, key2 row = row.1.1).
  { by intros [[[ts res] v] c]. }
  assert (Hat :
    sum_list_with
      (fun g : (Z * string) * list (string * nat) =>
         if decide (g.1 = k) then sum_list_with snd g.2 else 0)
      (freq_groups ordered)
    = length (List.filter (fun a => bool_decide ((key a).1 = k)) rows)).
  { unfold freq_groups. fold key2. rewrite sum_list_with_map. cbn [fst snd].
    rewrite (sum_list_with_ext _
      (fun g : (Z * string) * list (Z * string * string * nat) =>
         sum_list_with
           (fun row : Z * string * string * nat =>
              if decide (g.1 = k) then row.2 else 0) g.2)); last first.
    { intros g. rewrite sum_list_with_map. cbn [snd].
      destruct (decide (g.1 = k)); [done|].
      clear. induction g.2 as [|a l IH]; [done|]. cbn. exact IH. }
    pose (w := fun (k' : Z * string) (row : Z * string * string * nat) =>
                 if decide (k' = k) then row.2 else 0).
    etrans; [apply (@group_by_weighted _ _ _ w)|]. subst w. cbn beta.
    unfold ordered. rewrite order_by_Permutation.
    unfold counted. rewrite sum_list_with_map. cbn [fst snd].
    rewrite (sum_list_with_ext _
      (fun g : (Z * string * string) * list A =>
         sum_list_with
           (fun _ : A => if decide (g.1.1 = k) then 1 else 0) g.2)); last first.
    { intros g. rewrite Hkey2. cbn [fst].
      destruct (decide (g.1.1 = k)).
      - clear. induction g.2 as [|a l IH]; [done|]. cbn. by rewrite <- IH.
      - clear. induction g.2 as [|a l IH]; [done|]. cbn. exact IH. }
    pose (w := fun (k3 : Z * string * string) (_ : A) =>
                 if decide (k3.1 = k) then 1 else 0).
    etrans; [apply (@group_by_weighted _ _ _ w)|]. subst w. cbn beta.
    rewrite <- count_as_filter. apply sum_list_with_ext. intros a.
    by destruct (decide ((key a).1 = k));
      [rewrite bool_decide_eq_true_2 | rewrite bool_decide_eq_false_2]. }
  destruct o as [[k' l]|]; cbn [freq_or_empty snd].
  - intros [Hin Hk]. cbn [fst] in Hk. subst k'.
    rewrite <- Hat. symmetry.
    apply (sum_at_key_in (sum_list_with snd)); [|done].
    apply freq_groups_keys.
  - intros Hout. rewrite <- Hat. symmetry. cbn.
    by apply (sum_at_key_out (sum_list_with snd)).
Qed.

End Frequencies.

(** What a LEFT JOIN on the (timestamp, resource) key attaches to a row:
    a row of the right table with the key of the left row, or nothing when
    the right table has no such key. *)
Lemma left_join_on_bucket {A B : Type} (ka : A -> Z * string)
  (l : list A) (r : list ((Z * string) * B)) x :
  x ∈ left_join (on_bucket ka) l r ->
  match x.2 with
  | Some g => g ∈ r /\ g.1 = ka x.1
  | None => ka x.1 ∉ r.*1
  end.
Proof.
  unfold left_join. rewrite list_elem_of_In, in_flat_map.
  intros (a & _ & Hx).
  destruct (List.filter (on_bucket ka a) r) as [|b bs] eqn:Hf.
  - destruct Hx as [<-|[]]. cbn [fst snd].
    intros (g & Hk & Hg)%list_elem_of_fmap.
    assert (Hin : In g (List.filter (on_bucket ka a) r)).
    { apply filter_In. split; [by apply list_elem_of_In|].
      unfold on_bucket. by apply bool_decide_eq_true_2. }
    by rewrite Hf in Hin.
  - apply in_map_iff in Hx as (b' & <- & Hb). cbn [fst snd].
    rewrite <- Hf in Hb. apply filter_In in Hb as [Hb Hon].
    split; [by apply list_elem_of_In|].
    unfold on_bucket in Hon. by apply bool_decide_eq_true_1 in Hon.
Qed.

Section Sums.
Context (X : Externals).

(** The rows behind a usage record. *)
Lemma usage_statistics_row top_n u e :
  e ∈ usage_statistics X top_n u ->
  exists a ob oc od,
    a ∈ subquery_a X u /\
    e = {| us_timestamp := a.1.1; us_resource := a.1.2;
           us_query_count := a.2;
           us_query_freq := freq_or_empty ob;
           us_user_freq := freq_or_empty oc;
           us_column_freq := freq_or_empty od |} /\
    match ob with
    | Some g => g ∈ subquery_b X top_n u /\ g.1 = a.1
    | None => a.1 ∉ (subquery_b X top_n u).*1
    end /\
    match oc with
    | Some g => g ∈ subquery_c X u /\ g.1 = a.1
    | None => a.1 ∉ (subquery_c X u).*1
    end /\
    match od with
    | Some g => g ∈ subquery_d X u /\ g.1 = a.1
    | None => a.1 ∉ (subquery_d X u).*1
    end.
Proof.
  unfold usage_statistics. rewrite list_elem_of_In, in_map_iff.
  intros ([[[a ob] oc] od] & <- & Hrow). cbn [fst snd].
  apply list_elem_of_In in Hrow. rewrite order_by_Permutation in Hrow.
  pose proof (left_join_on_bucket _ _ _ _ Hrow) as Hd.
  apply elem_of_left_join in Hrow.
  pose proof (left_join_on_bucket _ _ _ _ Hrow) as Hc.
  apply elem_of_left_join in Hrow.
  pose proof (left_join_on_bucket _ _ _ _ Hrow) as Hb.
  apply elem_of_left_join in Hrow.
  cbn [fst snd] in *. by exists a, ob, oc, od.
Qed.

Lemma group_length {A K : Type} `{EqDecision K} (key : A -> K) rows k g :
  (k, g) ∈ group_by key rows ->
  length g = length (List.filter (fun a => bool_decide (key a = k)) rows).
Proof.
  intros Hin.
  pose (w := fun (k' : K) (_ : A) => if decide (k' = k) then 1 else 0).
  pose proof (group_by_weighted w key rows) as Hw. subst w. cbn beta in Hw.
  rewrite <- count_as_filter.
  rewrite (sum_list_with_ext _
             (fun a => if decide (key a = k) then 1 else 0)); last first.
  { intros a. by destruct (decide (key a = k));
      [rewrite bool_decide_eq_true_2 | rewrite bool_decide_eq_false_2]. }
  rewrite <- Hw.
  rewrite (sum_list_with_ext _
    (fun g : K * list A => if decide (g.1 = k) then length g.2 else 0));
    last first.
  { intros g'. destruct (decide (g'.1 = k)).
    - clear. induction g'.2 as [|a l IH]; [done|]. cbn. by rewrite IH.
    - clear. induction g'.2 as [|a l IH]; [done|]. cbn. exact IH. }
  symmetry. apply (sum_at_key_in (@length A)); [|done].
  apply group_by_NoDup.
Qed.

(** X11: in every record of [usage_statistics], the query count is the
    number of joined (read, query) pairs of the record's bucket and
    resource; with [top_n >= 1] the counts of the query frequencies add up
    to the query count; the counts of the user frequencies add up to the
    number of all stored reads of that bucket and resource, joined or not;
    the counts of the column frequencies add up to the number of column
    accesses of those reads. *)
Theorem frequencies_add_up_to_the_group_sizes top_n u e :
  e ∈ usage_statistics X top_n u ->
  us_query_count e
  = length (List.filter
              (fun j : (string * ReadEvent) * (string * QueryEvent) =>
                 bool_decide ((r_timestamp X j.1, r_resource X j.1)
                              = (us_timestamp e, us_resource e)))
              (joined_reads u)) /\
  (1 <= top_n -> sum_list_with snd (us_query_freq e) = us_query_count e) /\
  sum_list_with snd (us_user_freq e)
  = length (List.filter
              (fun r => bool_decide ((r_timestamp X r, r_resource X r)
                                     = (us_timestamp e, us_resource e)))
              (read_events u)) /\
  sum_list_with snd (us_column_freq e)
  = length (List.filter
              (fun j : (string * ReadEvent) * (string * (string * string)) =>
                 bool_decide ((r_timestamp X j.1, r_resource X j.1)
                              = (us_timestamp e, us_resource e)))
              (inner_join
                 (fun (r : string * ReadEvent) c =>
                    bool_decide (r.1 = c_read_event c))
                 (read_events u) (column_accesses u))).
Proof.
  intros (a & ob & oc & od & Ha & -> & Hb & Hc & Hd)%usage_statistics_row.
  cbn [us_timestamp us_resource us_query_count us_query_freq us_user_freq
       us_column_freq].
  assert (Hcount : a.2 = length (List.filter
            (fun row : (string * ReadEvent) * (string * QueryEvent) =>
               bool_decide ((r_timestamp X row.1, r_resource X row.1)
                            = (a.1.1, a.1.2)))
            (joined_reads u))).
  { unfold subquery_a in Ha.
    apply list_elem_of_In, in_map_iff in Ha as ([k g] & <- & Hg).
    cbn [fst snd]. apply list_elem_of_In in Hg.
    rewrite (group_length _ _ _ _ Hg). by destruct k. }
  assert (Hk : (a.1.1, a.1.2) = a.1) by by destruct a as [[ts res] n].
  split; [exact Hcount|]. split; [|split].
  - intros Hn. rewrite Hcount.
    rewrite subquery_b_uncapped in Hb by done.
    rewrite (frequencies_add_up _ _ a.1 ob Hb). cbn [fst].
    by rewrite Hk.
  - unfold subquery_c in Hc.
    rewrite (frequencies_add_up _ _ a.1 oc Hc). cbn [fst]. by rewrite Hk.
  - unfold subquery_d in Hd.
    rewrite (frequencies_add_up _ _ a.1 od Hd). cbn [fst]. by rewrite Hk.
Qed.

End Sums.

Section Order.
Context {A : Type} (le : A -> A -> bool).
Hypothesis le_total : forall x y, le x y = false -> le y x = true.

Lemma insert_sorted_Sorted x l :
  Sorted (fun a b => le a b = true) l ->
  Sorted (fun a b => le a b = true) (insert_sorted le x l).
Proof.
  induction l as [|y l IH]; intros Hs; cbn [insert_sorted].
  - by repeat constructor.
  - destruct (le x y) eqn:Hxy.
    + constructor; [exact Hs|]. by constructor.
    + apply Sorted_inv in Hs as [Hs Hhd]. constructor; [by apply IH|].
      destruct l as [|z l]; cbn [insert_sorted].
      * constructor. by apply le_total.
      * destruct (le x z); constructor.
        -- by apply le_total.
        -- by apply HdRel_inv in Hhd.
Qed.

Lemma order_by_Sorted l : Sorted (fun a b => le a b = true) (order_by le l).
Proof.
  induction l as [|x l IH]; cbn [order_by fold_right]; [constructor|].
  by apply insert_sorted_Sorted.
Qed.

End Order.

Lemma Sorted_map {A B : Type} (f : A -> B) (R : B -> B -> Prop) l :
  Sorted (fun a b => R (f a) (f b)) l -> Sorted R (map f l).
Proof.
  induction 1 as [|a l Hs IH Hhd]; cbn [map]; constructor; [done|].
  destruct Hhd; cbn [map]; by constructor.
Qed.

Lemma not_after_total c1 c2 c1' c2' :
  c1' = CompOpp c1 -> c2' = CompOpp c2 ->
  not_after (then_by c1 c2) = false -> not_after (then_by c1' c2') = true.
Proof. intros -> ->. by destruct c1, c2. Qed.

(** X12: the records of [usage_statistics] come in the order of the
    ORDER BY clause: by bucket, and by resource within a bucket (buckets
    compared as instants, resources as strings). *)
Theorem usage_records_come_sorted (X : Externals) top_n u :
  Sorted (fun e1 e2 =>
            (us_timestamp e1 < us_timestamp e2)%Z
            \/ (us_timestamp e1 = us_timestamp e2
                /\ String.leb (us_resource e1) (us_resource e2) = true))
         (usage_statistics X top_n u).
Proof.
  unfold usage_statistics. apply Sorted_map.
  cbn [us_timestamp us_resource].
  eapply Sorted_ind with (P := fun l => Sorted _ l);
    [constructor| |apply (order_by_Sorted (bucket_order _))].
  - intros a l _ IH Hhd. constructor; [exact IH|].
    destruct Hhd as [|b l Hab]; constructor.
    unfold bucket_order, String.leb in *.
    destruct (Z.compare_spec a.1.1.1.1.1 b.1.1.1.1.1) as [Heq|Hlt|Hgt];
      cbn [then_by] in Hab.
    + right. split; [exact Heq|]. unfold not_after in Hab.
      by destruct (String.compare _ _).
    + by left.
    + done.
  - intros x y Hxy. unfold bucket_order in *.
    eapply not_after_total; [| |exact Hxy].
    + apply Z.compare_antisym.
    + apply String.compare_antisym.
Qed.

(** ** Emission of the usage records *)

Section EmissionMore.
Context (config : BigQueryV2Config).

Lemma resolve_query_freq_cases freq s :
  (exists texts,
     resolve_query_freq freq s = (Returned texts, s) /\
     Forall2
       (fun (ref : string * nat) (resolved : string * nat) =>
          resolved.2 = ref.2 /\
          exists text,
            queries (usage_state s) !! ref.1 = Some text /\
            resolved.1 = default text (uuid_to_query s !! ref.1))
       freq texts)
  \/ (exists key,
        resolve_query_freq freq s = (Raised (KeyError key), s) /\
        key ∈ freq.*1 /\ queries (usage_state s) !! key = None).
Proof.
  induction freq as [|[h c] freq IH].
  - left. exists []. split; [done|constructor].
  - cbn [resolve_query_freq]. unfold bind at 1.
    unfold resolve_query, bind, queries_getitem.
    destruct (queries (usage_state s) !! h) as [text|] eqn:Hh.
    + destruct IH as [(texts & Hres & Hall)|(key & Hres & Hkey & Hnone)].
      * left. exists ((default text (uuid_to_query s !! h), c) :: texts).
        unfold bind. rewrite Hres. split; [done|].
        constructor; [|exact Hall]. cbn [fst snd]. split; [done|].
        by exists text.
      * right. exists key. unfold bind. rewrite Hres.
        split; [done|]. split; [|done]. rewrite fmap_cons. by right.
    + right. exists h. split; [done|]. split; [|done].
      rewrite fmap_cons. by left.
Qed.

(** One step of the emission loop: the record is yielded and counted, or
    the error is counted and nothing is yielded. *)
Lemma emit_usage_entry_cases entry s :
  (exists record,
     record_of config s entry record /\
     emit_usage_entry config entry s
     = (Returned tt,
        {| usage_state := usage_state s; uuid_to_query := uuid_to_query s;
           report := incr_usage_workunits_emitted (report s);
           uuids_drawn := uuids_drawn s; store_writes := store_writes s;
           yielded := yielded s ++ [UsageWorkUnit record] |}))
  \/ (exists key,
        key ∈ (us_query_freq entry).*1 /\
        queries (usage_state s) !! key = None /\
        emit_usage_entry config entry s
        = (Returned tt, with_error "statistics-workunit" (KeyError key) s)).
Proof.
  destruct (resolve_query_freq_cases (us_query_freq entry) s)
    as [(texts & Hres & Hall)|(key & Hres & Hkey & Hnone)].
  - left. eexists. split; last first.
    + unfold emit_usage_entry, try_except, bind at 1. rewrite Hres.
      reflexivity.
    + by repeat split.
  - right. exists key. split; [done|]. split; [done|].
    unfold emit_usage_entry, try_except, bind at 1. by rewrite Hres.
Qed.

Lemma errors_under_with_error label e s :
  errors_under label (with_error label e s) = S (errors_under label s).
Proof.
  unfold errors_under, with_error, incr_usage_error_count, report_warning,
    counter_incr. cbn. by rewrite lookup_insert_eq.
Qed.

Lemma errors_under_with_error_ne label label' e s :
  label <> label' ->
  errors_under label' (with_error label e s) = errors_under label' s.
Proof.
  intros Hne.
  unfold errors_under, with_error, incr_usage_error_count, report_warning,
    counter_incr. cbn. by rewrite lookup_insert_ne.
Qed.


(** The emission loop: what it leaves alone and what it counts. *)
Lemma emission_loop_accounts entries s :
  exists s' records,
    for_each (emit_usage_entry config) entries s = (Returned tt, s') /\
    usage_state s' = usage_state s /\
    uuid_to_query s' = uuid_to_query s /\
    uuids_drawn s' = uuids_drawn s /\
    store_writes s' = store_writes s /\
    num_usage_query_hash_collisions (report s')
    = num_usage_query_hash_collisions (report s) /\
    num_operational_stats_workunits_emitted (report s')
    = num_operational_stats_workunits_emitted (report s) /\
    yielded s' = yielded s ++ map UsageWorkUnit records /\
    num_usage_workunits_emitted (report s')
    = num_usage_workunits_emitted (report s) + length records /\
    errors_under "statistics-workunit" s' + length records
    = errors_under "statistics-workunit" s + length entries /\
    (forall label, label <> "statistics-workunit" ->
                   errors_under label s' = errors_under label s).
Proof.
  revert s. induction entries as [|entry entries IH]; intros s.
  - exists s, []. cbn [for_each map length]. unfold ret.
    rewrite app_nil_r. repeat split; lia.
  - cbn [for_each]. unfold bind at 1.
    destruct (emit_usage_entry_cases entry s)
      as [(record & _ & ->)|(key & _ & _ & ->)].
    + match goal with |- context [for_each _ entries ?s1] =>
        destruct (IH s1) as (s' & records & Hrun & Hu & Hq & Hd & Hw & Hc
                             & Ho & Hy & He & Herr & Hlab) end.
      cbn in Hu, Hq, Hd, Hw, Hc, Ho, Hy, He.
      exists s', (record :: records). rewrite Hrun.
      split; [done|]. repeat (split; [done|]).
      split; [by rewrite Hy, <- app_assoc|].
      split; [cbn [length]; lia|].
      split; [|exact Hlab].
      cbn [length]. unfold errors_under in *. cbn in Herr. lia.
    + destruct (IH (with_error "statistics-workunit" (KeyError key) s))
        as (s' & records & Hrun & Hu & Hq & Hd & Hw & Hc & Ho & Hy & He
            & Herr & Hlab).
      cbn in Hu, Hq, Hd, Hw, Hc, Ho, Hy, He.
      exists s', records. rewrite Hrun.
      split; [done|]. repeat (split; [done|]).
      rewrite errors_under_with_error in Herr.
      split; [cbn [length]; lia|].
      intros label Hne. rewrite Hlab by done.
      by apply errors_under_with_error_ne.
Qed.


End EmissionMore.

(** ** The operational deriver *)

Section DeriverMore.
Context (config : BigQueryV2Config) (X : Externals).

Lemma extract_operational_meta_cases event s :
  (read_event event = None /\ query_event event = None
   /\ _extract_operational_meta event s = (Returned None, s))
  \/ (exists meta s',
        _extract_operational_meta event s = (Returned (Some meta), s') /\
        usage_state s' = usage_state s /\
        uuid_to_query s' = uuid_to_query s /\
        uuids_drawn s' = uuids_drawn s /\
        store_writes s' = store_writes s /\
        yielded s' = yielded s /\
        num_usage_operations_dropped (report s')
        = num_usage_operations_dropped (report s) /\
        num_operational_stats_workunits_emitted (report s')
        = num_operational_stats_workunits_emitted (report s) /\
        num_usage_workunits_emitted (report s')
        = num_usage_workunits_emitted (report s) /\
        num_usage_query_hash_collisions (report s')
        = num_usage_query_hash_collisions (report s) /\
        usage_error_count (report s') = usage_error_count (report s) /\
        warnings (report s') = warnings (report s) /\
        (is_write_type (statement_type meta) = true
         <-> read_event event = None
             /\ exists q, query_event event = Some q
                  /\ is_Some (OPERATION_STATEMENT_TYPES !! statementType q)) /\
        (is_write_type (statement_type meta) = true ->
         custom_type meta = None)).
Proof.
  unfold _extract_operational_meta.
  destruct (query_event event) as [q|] eqn:Hq.
  - right. unfold bind, update_report, ret.
    eexists _, _. split; [reflexivity|].
    do 11 (split; [reflexivity|]).
    cbn [statement_type custom_type].
    destruct (OPERATION_STATEMENT_TYPES !! statementType q) as [op|] eqn:Hop.
    + destruct (read_event event) as [r|]; cbn [fst snd].
      * rewrite custom_is_no_write_type. split; [|discriminate].
        split; [discriminate|]. intros [? _]. discriminate.
      * rewrite (statement_type_write_type _ _ Hop). split; [|reflexivity].
        split; [|reflexivity]. intros _. split; [reflexivity|].
        exists q. split; [reflexivity|]. by exists op.
    + cbn [fst snd]. rewrite custom_is_no_write_type. split; [|discriminate].
      split; [discriminate|]. intros [_ (q' & Hq' & Hsome)].
      injection Hq' as <-. rewrite Hop in Hsome. by destruct Hsome.
  - destruct (read_event event) as [r|] eqn:Hr.
    + right. unfold ret. eexists _, _. split; [reflexivity|].
      do 11 (split; [reflexivity|]).
      cbn [statement_type custom_type].
      rewrite custom_is_no_write_type. split; [|discriminate].
      split; [discriminate|]. intros [? _]. discriminate.
    + left. by repeat split.
Qed.

Lemma get_destination_table_event event dest :
  _get_destination_table event = Some dest ->
  bool_decide (read_event event = None)
  && bool_decide (query_event event = None) = false.
Proof.
  unfold _get_destination_table.
  destruct (read_event event), (query_event event); try done.
Qed.

Lemma write_type_derivable event table_refs dest :
  _get_destination_table event = Some dest ->
  pattern_allowed X dest = true ->
  table_str X dest ∈ table_refs ->
  derivable config X table_refs event
  = include_read_operational_stats config
    || (bool_decide (read_event event = None)
        && match query_event event with
           | Some q =>
               bool_decide
                 (is_Some (OPERATION_STATEMENT_TYPES !! statementType q))
           | None => false
           end).
Proof.
  intros Hdest Hallowed Hknown. unfold derivable.
  rewrite Hdest, Hallowed. by rewrite bool_decide_eq_true_2.
Qed.

(** One call of [_create_operation_workunit]: what it returns, and what
    it does to the state. *)
Lemma create_operation_workunit_cases event table_refs s :
  exists o s',
    _create_operation_workunit config X event table_refs s
    = (Returned o, s') /\
    match o with
    | Some wu =>
        derivable config X table_refs event = true /\
        exists urn aspect,
          wu = OperationWorkUnit urn aspect /\
          Some urn = destination_urn config X event
    | None => derivable config X table_refs event = false
    end /\
    num_usage_operations_dropped (report s')
    = num_usage_operations_dropped (report s)
      + (if discarded X table_refs event then 1 else 0) /\
    usage_state s' = usage_state s /\
    uuid_to_query s' = uuid_to_query s /\
    uuids_drawn s' = uuids_drawn s /\
    store_writes s' = store_writes s /\
    yielded s' = yielded s /\
    num_operational_stats_workunits_emitted (report s')
    = num_operational_stats_workunits_emitted (report s) /\
    num_usage_workunits_emitted (report s')
    = num_usage_workunits_emitted (report s) /\
    num_usage_query_hash_collisions (report s')
    = num_usage_query_hash_collisions (report s) /\
    usage_error_count (report s') = usage_error_count (report s) /\
    warnings (report s') = warnings (report s).
Proof.
  unfold _create_operation_workunit, discarded, destination_urn.
  destruct (_get_destination_table event) as [dest|] eqn:Hdest; last first.
  { exists None, s. unfold derivable. rewrite Hdest.
    destruct (bool_decide (read_event event = None)
              && bool_decide (query_event event = None));
      (split; [reflexivity|]); (split; [reflexivity|]);
      repeat split; lia. }
  rewrite (get_destination_table_event _ _ Hdest).
  unfold _is_table_allowed.
  destruct (pattern_allowed X dest) eqn:Hallowed; cbn [negb orb andb];
    last first.
  { eexists None, _. unfold bind, update_report, ret.
    split; [reflexivity|]. unfold derivable. rewrite Hdest, Hallowed.
    split; [reflexivity|]. repeat split; cbn; lia. }
  destruct (bool_decide (table_str X dest ∈ table_refs)) eqn:Hknown;
    cbn [negb]; last first.
  { eexists None, _. unfold bind, update_report, ret.
    split; [reflexivity|]. unfold derivable. rewrite Hdest, Hallowed, Hknown.
    split; [reflexivity|]. repeat split; cbn; lia. }
  apply bool_decide_eq_true in Hknown.
  rewrite (write_type_derivable _ _ _ Hdest Hallowed Hknown).
  unfold bind at 1.
  destruct (extract_operational_meta_cases event s)
    as [(Hr & Hq & _)|(meta & s' & -> & Hu & Huq & Hud & Hsw & Hy & Hd & Ho
                       & Hue & Hc & He & Hwarn & Hwrite & _)].
  { unfold _get_destination_table in Hdest. by rewrite Hr, Hq in Hdest. }
  assert (Hiff :
    bool_decide (read_event event = None)
    && match query_event event with
       | Some q =>
           bool_decide (is_Some (OPERATION_STATEMENT_TYPES !! statementType q))
       | None => false
       end
    = is_write_type (statement_type meta)).
  { destruct (is_write_type (statement_type meta)) eqn:Hw.
    - destruct Hwrite as [Hwrite _].
      destruct (Hwrite eq_refl) as (Hr & q & Hq & Hsome).
      rewrite Hq. rewrite (bool_decide_eq_true_2 _ Hr), (bool_decide_eq_true_2 _ Hsome).
      reflexivity.
    - apply not_true_is_false. intros Hcond.
      apply andb_true_iff in Hcond as [Hr Hq].
      apply bool_decide_eq_true in Hr.
      destruct (query_event event) as [q|]; [|discriminate].
      apply bool_decide_eq_true in Hq.
      destruct Hwrite as [_ Hwrite].
      assert (false = true); [|discriminate].
      apply Hwrite. split; [exact Hr|]. exists q. split; [reflexivity|exact Hq]. }
  rewrite Hiff.
  destruct (include_read_operational_stats config) eqn:Hstats; cbn [negb andb orb].
  - eexists (Some _), s'. unfold ret. split; [reflexivity|].
    split; [split; [reflexivity|eexists _, _; split; reflexivity]|].
    repeat split; first [lia | assumption].
  - destruct (is_write_type (statement_type meta)) eqn:Hw; cbn [negb].
    + eexists (Some _), s'. unfold ret. split; [reflexivity|].
      split; [split; [reflexivity|eexists _, _; split; reflexivity]|].
      repeat split; first [lia | assumption].
    + exists None, s'. unfold ret. split; [reflexivity|].
      split; [reflexivity|].
      repeat split; first [lia | assumption].
Qed.

(** X13: [_create_operation_workunit] never raises, and returns a work unit
    exactly when the pair is [derivable]: it has a destination table that
    the table pattern allows and that is among the known tables, and read
    statistics are included or the pair is a query event on its own with a
    statement type of [OPERATION_STATEMENT_TYPES].  The counter of dropped
    operations goes up by one exactly when there is a destination table
    that is not allowed or not known; the store, the surrogate map, the
    work units yielded and the error counts are untouched. *)
Theorem operation_record_is_derived_exactly_when event table_refs s :
  exists o s',
    _create_operation_workunit config X event table_refs s
    = (Returned o, s') /\
    (is_Some o <-> derivable config X table_refs event = true) /\
    num_usage_operations_dropped (report s')
    = num_usage_operations_dropped (report s)
      + (if discarded X table_refs event then 1 else 0) /\
    usage_state s' = usage_state s /\
    uuid_to_query s' = uuid_to_query s /\
    yielded s' = yielded s /\
    usage_error_count (report s') = usage_error_count (report s).
Proof.
  destruct (create_operation_workunit_cases event table_refs s)
    as (o & s' & Hrun & Ho & Hd & Hu & Hq & _ & _ & Hy & _ & _ & _ & He & _).
  exists o, s'. split; [exact Hrun|]. split; [|by repeat split].
  destruct o as [wu|].
  - destruct Ho as [Ho _]. split; [done|by eexists].
  - rewrite Ho. split; [by intros []|discriminate].
Qed.


End DeriverMore.

Section Members.
Context {A K : Type} `{EqDecision K}.



End Members.



Section References.
Context (X : Externals).


End References.

(** ** The two emission loops and [_run] *)

Section Loops.
Context (config : BigQueryV2Config) (X : Externals).

Lemma operational_loop table_refs events s :
  exists s' ops,
    for_each (operational_step config X table_refs) events s
    = (Returned tt, s') /\
    yielded s' = yielded s ++ map (fun ua => OperationWorkUnit ua.1 ua.2) ops /\
    Some <$> ops.*1
    = map (destination_urn config X)
          (List.filter (derivable config X table_refs) events) /\
    num_operational_stats_workunits_emitted (report s')
    = num_operational_stats_workunits_emitted (report s) + length ops /\
    num_usage_operations_dropped (report s')
    = num_usage_operations_dropped (report s)
      + length (List.filter (discarded X table_refs) events) /\
    usage_state s' = usage_state s /\
    uuid_to_query s' = uuid_to_query s /\
    uuids_drawn s' = uuids_drawn s /\
    store_writes s' = store_writes s /\
    num_usage_workunits_emitted (report s')
    = num_usage_workunits_emitted (report s) /\
    num_usage_query_hash_collisions (report s')
    = num_usage_query_hash_collisions (report s) /\
    usage_error_count (report s') = usage_error_count (report s) /\
    warnings (report s') = warnings (report s).
Proof.
  revert s. induction events as [|event events IH]; intros s.
  - exists s, []. cbn [for_each map length List.filter fmap list_fmap].
    unfold ret. rewrite app_nil_r. repeat split; lia.
  - cbn [for_each List.filter]. unfold bind at 1.
    unfold operational_step at 1, try_except, bind at 1.
    destruct (create_operation_workunit_cases config X event table_refs s)
      as (o & s1 & -> & Ho & Hd & Hu & Hq & Hud & Hsw & Hy & Hoe & Hue & Hc
          & He & Hw).
    destruct o as [wu|].
    + destruct Ho as (-> & urn & aspect & -> & Hurn).
      unfold bind, yield, update_report.
      match goal with |- context [for_each _ events ?s2] =>
        destruct (IH s2) as (s' & ops & -> & Hy' & Hurns & Hoe' & Hd' & Hu'
                             & Hq' & Hud' & Hsw' & Hue' & Hc' & He' & Hw') end.
      cbn [usage_state uuid_to_query report uuids_drawn store_writes yielded
           incr_operational_stats_workunits_emitted
           num_operational_stats_workunits_emitted num_usage_operations_dropped
           num_usage_workunits_emitted num_usage_query_hash_collisions
           usage_error_count warnings] in *.
      exists s', ((urn, aspect) :: ops).
      split; [reflexivity|].
      split; [rewrite Hy', Hy, <- app_assoc; reflexivity|].
      split; [rewrite fmap_cons, fmap_cons, map_cons, Hurns; cbn [fst];
              by rewrite Hurn|].
      split; [cbn [length]; lia|].
      split; [destruct (discarded X table_refs event); cbn [length]; lia|].
      repeat split; congruence.
    + unfold ret.
      destruct (IH s1) as (s' & ops & -> & Hy' & Hurns & Hoe' & Hd' & Hu'
                           & Hq' & Hud' & Hsw' & Hue' & Hc' & He' & Hw').
      rewrite Ho. exists s', ops.
      split; [reflexivity|].
      split; [by rewrite Hy', Hy|].
      split; [exact Hurns|].
      split; [lia|].
      split; [destruct (discarded X table_refs event); cbn [length]; lia|].
      repeat split; congruence.
Qed.

Lemma operation_records_stage table_refs s :
  exists s',
    _generate_operational_workunits config X table_refs s = (Returned tt, s').
Proof.
  unfold _generate_operational_workunits.
  destruct (operational_loop table_refs (standalone_events (usage_state s)) s)
    as (s' & ops & Hrun & _).
  by exists s'.
Qed.

(** X15: [_generate_operational_workunits] returns, having yielded one
    operation work unit for every [derivable] pair of [standalone_events],
    in the order of the stream, each on the URN of its pair's destination
    table, and nothing else; the counter of emitted operation work units
    goes up by their number, the counter of dropped operations by the
    number of pairs whose destination is not allowed or not known; the
    store, the surrogate map and the error counts are untouched. *)
Theorem operation_records_follow_the_stream table_refs s :
  exists s' ops,
    _generate_operational_workunits config X table_refs s = (Returned tt, s') /\
    yielded s' = yielded s ++ map (fun ua => OperationWorkUnit ua.1 ua.2) ops /\
    Some <$> ops.*1
    = map (destination_urn config X)
          (List.filter (derivable config X table_refs)
                       (standalone_events (usage_state s))) /\
    num_operational_stats_workunits_emitted (report s')
    = num_operational_stats_workunits_emitted (report s) + length ops /\
    num_usage_operations_dropped (report s')
    = num_usage_operations_dropped (report s)
      + length (List.filter (discarded X table_refs)
                            (standalone_events (usage_state s))) /\
    usage_state s' = usage_state s /\
    uuid_to_query s' = uuid_to_query s /\
    usage_error_count (report s') = usage_error_count (report s).
Proof.
  unfold _generate_operational_workunits.
  destruct (operational_loop table_refs (standalone_events (usage_state s)) s)
    as (s' & ops & Hrun & Hy & Hurns & Hoe & Hd & Hu & Hq & _ & _ & _ & _
        & He & _).
  exists s', ops. by repeat split.
Qed.

End Loops.

Section RunMore.
Context (config : BigQueryV2Config) (X : Externals).

(** Ingestion yields nothing and counts nothing as emitted. *)
Lemma ingest_events_frame events table_refs s :
  let s' := (_ingest_events config X events table_refs s).2 in
  yielded s' = yielded s /\
  num_operational_stats_workunits_emitted (report s')
  = num_operational_stats_workunits_emitted (report s) /\
  num_usage_workunits_emitted (report s')
  = num_usage_workunits_emitted (report s) /\
  num_usage_operations_dropped (report s')
  = num_usage_operations_dropped (report s) /\
  (forall label, label <> "store-event" ->
                 errors_under label s' = errors_under label s).
Proof.
  apply (ingest_events_keeps config X
    (fun s' =>
       yielded s' = yielded s /\
       num_operational_stats_workunits_emitted (report s')
       = num_operational_stats_workunits_emitted (report s) /\
       num_usage_workunits_emitted (report s')
       = num_usage_workunits_emitted (report s) /\
       num_usage_operations_dropped (report s')
       = num_usage_operations_dropped (report s) /\
       (forall label, label <> "store-event" ->
                      errors_under label s' = errors_under label s)));
    [..|by repeat split].
  - intros f [->|[[ent ->]| ->]] s0 H0; exact H0.
  - intros s0 H0. exact H0.
  - intros k v s0 H0. unfold store_write.
    by destruct (io_fault X (store_writes s0)).
  - intros k v s0 H0. unfold store_write.
    by destruct (io_fault X (store_writes s0)).
  - intros q name s0 H0.
    unfold store_query_event, queries_get, bind, ret, store_write, new_uuid,
      set_uuid_to_query, update_report. simpl.
    repeat (case_match; simplify_eq/=); done.
  - intros e s0 (Hy & Ho & Hu & Hd & Hlab). rewrite report_error_eq.
    cbn [snd]. repeat (split; [assumption|]).
    intros label Hne. rewrite <- (Hlab label Hne).
    apply (errors_under_with_error_ne "store-event" label e s0). congruence.
Qed.


(** [_run], stage by stage. *)
Lemma run_stages events table_refs s :
  let s1 := (_ingest_events config X events table_refs
               (open_usage_state s).2).2 in
  let s2 := if include_operational_stats config
            then (_generate_operational_workunits config X table_refs s1).2
            else s1 in
  _run config X events table_refs s
  = (Returned tt, (_generate_usage_workunits config X s2).2).
Proof.
  intros s1 s2. unfold _run, try_except, bind at 1.
  unfold open_usage_state at 1. unfold bind at 1.
  destruct (ingest_events_returns config X events table_refs
              (open_usage_state s).2) as [s1' Hs1].
  assert (s1 = s1') as Hs1' by (subst s1; by rewrite Hs1).
  unfold open_usage_state in Hs1. cbn [snd] in Hs1. rewrite Hs1.
  unfold bind at 1. subst s2.
  destruct (include_operational_stats config).
  - destruct (operation_records_stage config X table_refs s1') as [s2' Hs2].
    rewrite Hs1'. rewrite Hs2. cbn [snd].
    destruct (generate_usage_workunits_returns config X s2') as [s3 Hs3].
    by rewrite Hs3.
  - unfold ret. rewrite Hs1'.
    destruct (generate_usage_workunits_returns config X s1') as [s3 Hs3].
    by rewrite Hs3.
Qed.

End RunMore.




Lemma operation_records_app wus1 wus2 :
  operation_records (wus1 ++ wus2)
  = operation_records wus1 ++ operation_records wus2.
Proof. unfold operation_records. apply flat_map_app. Qed.

Lemma operation_records_operations (ops : list (string * OperationClass)) :
  operation_records (map (fun ua => OperationWorkUnit ua.1 ua.2) ops) = ops.
Proof.
  induction ops as [|[urn aspect] ops IH]; [done|].
  cbn [map]. unfold operation_records in *. cbn [flat_map app fst snd].
  by rewrite IH.
Qed.

Lemma operation_records_usage records :
  operation_records (map UsageWorkUnit records) = [].
Proof. induction records as [|r records IH]; [done|exact IH]. Qed.

Section RunTheorems.
Context (config : BigQueryV2Config) (X : Externals).

(** X16: [_generate_usage_workunits] returns, having yielded usage work
    units only; the counter of emitted usage work units goes up by their
    number, and the records of [usage_statistics] that were not emitted
    are all counted as errors under "statistics-workunit": emitted plus
    newly counted errors is the number of records.  No other label is
    counted, and the store and the surrogate map are untouched. *)
Theorem usage_emission_accounts s :
  let entries :=
    usage_statistics X
      (if include_top_n_queries config then top_n_queries config else 0)
      (usage_state s) in
  exists s' records,
    _generate_usage_workunits config X s = (Returned tt, s') /\
    yielded s' = yielded s ++ map UsageWorkUnit records /\
    num_usage_workunits_emitted (report s')
    = num_usage_workunits_emitted (report s) + length records /\
    errors_under "statistics-workunit" s' + length records
    = errors_under "statistics-workunit" s + length entries /\
    (forall label, label <> "statistics-workunit" ->
                   errors_under label s' = errors_under label s) /\
    usage_state s' = usage_state s /\
    uuid_to_query s' = uuid_to_query s.
Proof.
  intros entries. unfold _generate_usage_workunits. fold entries.
  destruct (emission_loop_accounts config entries s)
    as (s' & records & Hrun & Hu & Hq & _ & _ & _ & _ & Hy & He & Herr & Hlab).
  exists s', records. by repeat split.
Qed.




(** X19: [_run] returns, having yielded the operation work units first and
    the usage work units after them, and no operation work unit at all
    with [include_operational_stats] off; the two counters of emitted work
    units go up by the two numbers; the usage records emitted plus the
    errors newly counted under "statistics-workunit" are the records of
    [usage_statistics] on the store that the ingestion stage leaves, which
    is the store [_run] ends with. *)
Theorem run_yields_operations_then_usage events table_refs s :
  let s1 := (_ingest_events config X events table_refs
               (open_usage_state s).2).2 in
  exists s' ops records,
    _run config X events table_refs s = (Returned tt, s') /\
    yielded s'
    = yielded s ++ map (fun ua => OperationWorkUnit ua.1 ua.2) ops
      ++ map UsageWorkUnit records /\
    (include_operational_stats config = false -> ops = []) /\
    num_operational_stats_workunits_emitted (report s')
    = num_operational_stats_workunits_emitted (report s) + length ops /\
    num_usage_workunits_emitted (report s')
    = num_usage_workunits_emitted (report s) + length records /\
    errors_under "statistics-workunit" s' + length records
    = errors_under "statistics-workunit" s
      + length (usage_statistics X
                  (if include_top_n_queries config
                   then top_n_queries config else 0)
                  (usage_state s1)) /\
    usage_state s' = usage_state s1 /\
    uuid_to_query s' = uuid_to_query s1.
Proof.
  intros s1. rewrite run_stages. fold s1.
  destruct (ingest_events_frame config X events table_refs
              (open_usage_state s).2) as (Hy1 & Ho1 & Hu1 & _ & Hlab1).
  fold s1 in Hy1, Ho1, Hu1, Hlab1.
  unfold open_usage_state in Hy1, Ho1, Hu1, Hlab1.
  cbn [snd yielded report] in Hy1, Ho1, Hu1.
  assert (Herr1 : errors_under "statistics-workunit" s1
                  = errors_under "statistics-workunit" s).
  { rewrite Hlab1 by discriminate. reflexivity. }
  assert (Hops : exists s2 ops,
    (if include_operational_stats config
     then (_generate_operational_workunits config X table_refs s1).2
     else s1) = s2 /\
    yielded s2 = yielded s1 ++ map (fun ua => OperationWorkUnit ua.1 ua.2) ops /\
    (include_operational_stats config = false -> ops = []) /\
    num_operational_stats_workunits_emitted (report s2)
    = num_operational_stats_workunits_emitted (report s1) + length ops /\
    num_usage_workunits_emitted (report s2)
    = num_usage_workunits_emitted (report s1) /\
    usage_error_count (report s2) = usage_error_count (report s1) /\
    usage_state s2 = usage_state s1 /\
    uuid_to_query s2 = uuid_to_query s1).
  { destruct (include_operational_stats config).
    - unfold _generate_operational_workunits.
      destruct (operational_loop config X table_refs
                  (standalone_events (usage_state s1)) s1)
        as (s2 & ops & Hrun & Hy & _ & Hoe & _ & Hu & Hq & _ & _ & Hue & _
            & He & _).
      exists s2, ops. rewrite Hrun. by repeat split.
    - exists s1, []. cbn [map length]. rewrite app_nil_r.
      repeat split; lia. }
  destruct Hops as (s2 & ops & -> & Hy2 & Hoff & Ho2 & Hu2 & He2 & Hs2 & Hq2).
  unfold _generate_usage_workunits. rewrite Hs2.
  destruct (emission_loop_accounts config
              (usage_statistics X
                 (if include_top_n_queries config
                  then top_n_queries config else 0) (usage_state s1)) s2)
    as (s' & records & Hrun & Hu & Hq & _ & _ & _ & Ho3 & Hy3 & Hu3 & Herr3
        & _).
  rewrite Hrun. cbn [snd]. exists s', ops, records.
  split; [reflexivity|].
  split; [by rewrite Hy3, Hy2, Hy1, <- app_assoc|].
  split; [exact Hoff|].
  split; [lia|]. split; [lia|].
  split; [|split; congruence].
  unfold errors_under in *. rewrite He2 in Herr3. lia.
Qed.

End RunTheorems.

Section EndToEnd.
Context (config : BigQueryV2Config) (X : Externals).

Lemma references_held_open s : references_held (open_usage_state s).2.
Proof. intros name q Hin. by apply elem_of_nil in Hin. Qed.

Lemma references_held_frame s s' :
  usage_state s' = usage_state s -> uuid_to_query s' = uuid_to_query s ->
  references_held s -> references_held s'.
Proof. unfold references_held. by intros -> ->. Qed.


(** The store and the surrogate map that [_run] leaves are those that its
    ingestion stage leaves. *)
Lemma run_store events table_refs s :
  let s1 := (_ingest_events config X events table_refs
               (open_usage_state s).2).2 in
  let s' := (_run config X events table_refs s).2 in
  usage_state s' = usage_state s1 /\ uuid_to_query s' = uuid_to_query s1 /\
  num_usage_query_hash_collisions (report s')
  = num_usage_query_hash_collisions (report s1) /\
  exists s2 ops,
    s' = (_generate_usage_workunits config X s2).2 /\
    usage_state s2 = usage_state s1 /\ uuid_to_query s2 = uuid_to_query s1 /\
    usage_error_count (report s2) = usage_error_count (report s1) /\
    yielded s2 = yielded s1 ++ map (fun ua => OperationWorkUnit ua.1 ua.2) ops.
Proof.
  intros s1. rewrite run_stages. fold s1. cbn [snd].
  assert (Hops : exists s2 ops,
    (if include_operational_stats config
     then (_generate_operational_workunits config X table_refs s1).2
     else s1) = s2 /\
    usage_state s2 = usage_state s1 /\ uuid_to_query s2 = uuid_to_query s1 /\
    num_usage_query_hash_collisions (report s2)
    = num_usage_query_hash_collisions (report s1) /\
    usage_error_count (report s2) = usage_error_count (report s1) /\
    yielded s2 = yielded s1 ++ map (fun ua => OperationWorkUnit ua.1 ua.2) ops).
  { destruct (include_operational_stats config).
    - unfold _generate_operational_workunits.
      destruct (operational_loop config X table_refs
                  (standalone_events (usage_state s1)) s1)
        as (s2 & ops & Hrun & Hy & _ & _ & _ & Hu & Hq & _ & _ & _ & Hc
            & He & _).
      exists s2, ops. rewrite Hrun. by repeat split.
    - exists s1, []. cbn [map]. by rewrite app_nil_r. }
  destruct Hops as (s2 & ops & -> & Hu2 & Hq2 & Hc2 & He2 & Hy2).
  unfold _generate_usage_workunits at 1 2 3.
  destruct (emission_loop_accounts config
              (usage_statistics X
                 (if include_top_n_queries config
                  then top_n_queries config else 0) (usage_state s2)) s2)
    as (s' & records & Hrun & Hu & Hq & _ & _ & Hc & _).
  rewrite Hrun. cbn [snd].
  split; [congruence|]. split; [congruence|]. split; [congruence|].
  exists s2, ops. unfold _generate_usage_workunits. rewrite Hrun.
  by repeat split.
Qed.

(** X20: every stored query event refers to a text that is held: its
    reference is a key of the QueryText table or of the surrogate map.
    [_ingest_events] keeps this, store writes failing or not, and it holds
    of the state that [_run] leaves, from any state. *)
Theorem stored_query_events_refer_to_a_held_text events table_refs s :
  (references_held s ->
   references_held (_ingest_events config X events table_refs s).2) /\
  references_held (_run config X events table_refs s).2.
Proof.
  split; [apply references_held_ingest|].
  destruct (run_store events table_refs s) as (Hu & Hq & _).
  eapply references_held_frame; [exact Hu|exact Hq|].
  apply references_held_ingest, references_held_open.
Qed.



End EndToEnd.

Section Properties.
Context (config : BigQueryV2Config) (X : Externals).

(** The query event of a pair of the stream is a stored query event. *)
Lemma standalone_events_query u event q :
  event ∈ standalone_events u -> query_event event = Some q ->
  exists name, (name, q) ∈ query_events u.
Proof.
  unfold standalone_events. rewrite elem_of_app, !list_elem_of_In, !in_map_iff.
  intros [([r oq] & <- & Hrow)|([name q'] & <- & Hq)]; cbn [query_event fst snd].
  - apply list_elem_of_In in Hrow.
    unfold left_join in Hrow.
    apply list_elem_of_In, in_flat_map in Hrow as (r' & _ & Hrow).
    destruct (List.filter (on_job r') (query_events u)) as [|b bs] eqn:Hf.
    + destruct Hrow as [[= <- <-]|[]]. discriminate.
    + apply in_map_iff in Hrow as ([name q'] & [= <- <-] & Hb).
      rewrite <- Hf in Hb. apply filter_In in Hb as [Hb _].
      cbn. intros [= <-]. exists name. by apply list_elem_of_In.
  - apply filter_In in Hq as [Hq _]. intros [= <-].
    exists name. by apply list_elem_of_In.
Qed.

Lemma custom_properties_text event v :
  ("text", v) ∈ _create_operational_custom_properties config event ->
  exists q, query_event event = Some q /\ v = query q.
Proof.
  unfold _create_operational_custom_properties.
  destruct (include_read_operational_stats config);
    [|by intros ?%elem_of_nil].
  rewrite elem_of_app. intros [Hq|Hr].
  - destruct (query_event event) as [q|]; [|by apply elem_of_nil in Hq].
    exists q. split; [done|].
    repeat (apply elem_of_app in Hq as [Hq|Hq]).
    + destruct (end_time_q q), (start_time_q q);
        try (by apply elem_of_nil in Hq).
      apply list_elem_of_singleton in Hq. discriminate.
    + destruct (truthy (job_name q)); [|by apply elem_of_nil in Hq].
      apply list_elem_of_singleton in Hq. discriminate.
    + apply list_elem_of_singleton in Hq. by injection Hq.
    + destruct (truthy_int (billed_bytes q)); [|by apply elem_of_nil in Hq].
      apply list_elem_of_singleton in Hq. discriminate.
    + destruct (truthy (default_dataset q)); [|by apply elem_of_nil in Hq].
      apply list_elem_of_singleton in Hq. discriminate.
  - exfalso. destruct (read_event event) as [r|]; [|by apply elem_of_nil in Hr].
    apply elem_of_app in Hr as [Hr|Hr].
    + destruct (truthy (readReason r)); [|by apply elem_of_nil in Hr].
      apply list_elem_of_singleton in Hr. discriminate.
    + destruct (fieldsRead r); [by apply elem_of_nil in Hr|].
      apply list_elem_of_singleton in Hr. discriminate.
Qed.

Lemma create_operation_workunit_properties event table_refs s urn aspect s' :
  _create_operation_workunit config X event table_refs s
  = (Returned (Some (OperationWorkUnit urn aspect)), s') ->
  customProperties aspect
  = if include_read_operational_stats config
    then Some (_create_operational_custom_properties config event)
    else None.
Proof.
  unfold _create_operation_workunit.
  destruct (bool_decide (read_event event = None)
            && bool_decide (query_event event = None)); [discriminate|].
  destruct (_get_destination_table event) as [dest|]; [|discriminate].
  destruct (negb (_is_table_allowed X (Some dest))
            || negb (bool_decide (table_str X dest ∈ table_refs)));
    [discriminate|].
  unfold bind at 1.
  destruct (_extract_operational_meta event s) as [[[meta|]|e] s1];
    try discriminate.
  destruct (negb (include_read_operational_stats config)
            && negb (is_write_type (statement_type meta))); [discriminate|].
  unfold ret. intros [= <- <- <-]. reflexivity.
Qed.

(** X23: the custom property "text" of an operation work unit derived from
    a pair of [standalone_events] is the [query] field of the stored query
    event, which ingestion has replaced by the reference: a key of the
    QueryText table or of the surrogate map, not the text of the query. *)
Theorem text_property_is_the_query_reference
  event table_refs s s0 urn aspect s0' props v :
  references_held s ->
  event ∈ standalone_events (usage_state s) ->
  _create_operation_workunit config X event table_refs s0
  = (Returned (Some (OperationWorkUnit urn aspect)), s0') ->
  customProperties aspect = Some props ->
  ("text", v) ∈ props ->
  (exists q, query_event event = Some q /\ v = query q) /\
  (is_Some (queries (usage_state s) !! v) \/ is_Some (uuid_to_query s !! v)).
Proof.
  intros Hheld Hevent Hwu Hprops Hin.
  rewrite (create_operation_workunit_properties _ _ _ _ _ _ Hwu) in Hprops.
  destruct (include_read_operational_stats config); [|discriminate].
  injection Hprops as <-.
  destruct (custom_properties_text _ _ Hin) as (q & Hq & ->).
  split; [by exists q|].
  destruct (standalone_events_query _ _ _ Hevent Hq) as [name Hname].
  exact (Hheld name q Hname).
Qed.

(** X24: [_create_operational_custom_properties] sets no key twice; the
    keys millisecondsTaken, sessionId, text, bytesProcessed and
    defaultDatabase occur only when the pair has a query event, the keys
    readReason and fieldsRead only when it has a read event; and with
    [include_read_operational_stats] on, "text" is always set for a pair
    with a query event, to its [query] field. *)
Theorem custom_properties_keys event :
  NoDup (_create_operational_custom_properties config event).*1 /\
  (forall k, k ∈ (_create_operational_custom_properties config event).*1 ->
     (is_Some (query_event event)
      /\ k ∈ ["millisecondsTaken"; "sessionId"; "text"; "bytesProcessed";
              "defaultDatabase"])
     \/ (is_Some (read_event event) /\ k ∈ ["readReason"; "fieldsRead"])) /\
  (include_read_operational_stats config = true ->
   forall q, query_event event = Some q ->
             ("text", query q)
             ∈ _create_operational_custom_properties config event).
Proof.
  unfold _create_operational_custom_properties.
  destruct (include_read_operational_stats config); last first.
  { split; [constructor|]. split; [by intros k ?%elem_of_nil|discriminate]. }
  split; [|split].
  - destruct (query_event event) as [q|], (read_event event) as [r|];
      try destruct (end_time_q q); try destruct (start_time_q q);
      try destruct (truthy (job_name q));
      try destruct (truthy_int (billed_bytes q));
      try destruct (truthy (default_dataset q));
      try destruct (truthy (readReason r));
      try destruct (fieldsRead r);
      cbn [app fmap list_fmap fst];
      apply (bool_decide_unpack _); vm_compute; exact I.
  - intros k Hk. rewrite fmap_app, elem_of_app in Hk.
    destruct Hk as [Hk|Hk].
    + left. destruct (query_event event) as [q|];
        [|by apply elem_of_nil in Hk].
      split; [by eexists|].
      rewrite !fmap_app, !elem_of_app in Hk.
      destruct Hk as [Hk|[Hk|[Hk|[Hk|Hk]]]].
      * destruct (end_time_q q), (start_time_q q);
          try (by apply elem_of_nil in Hk).
        apply list_elem_of_singleton in Hk as ->. set_solver.
      * destruct (truthy (job_name q)); [|by apply elem_of_nil in Hk].
        apply list_elem_of_singleton in Hk as ->. set_solver.
      * apply list_elem_of_singleton in Hk as ->. set_solver.
      * destruct (truthy_int (billed_bytes q)); [|by apply elem_of_nil in Hk].
        apply list_elem_of_singleton in Hk as ->. set_solver.
      * destruct (truthy (default_dataset q)); [|by apply elem_of_nil in Hk].
        apply list_elem_of_singleton in Hk as ->. set_solver.
    + right. destruct (read_event event) as [r|];
        [|by apply elem_of_nil in Hk].
      split; [by eexists|].
      rewrite fmap_app, elem_of_app in Hk. destruct Hk as [Hk|Hk].
      * destruct (truthy (readReason r)); [|by apply elem_of_nil in Hk].
        apply list_elem_of_singleton in Hk as ->. set_solver.
      * destruct (fieldsRead r); [by apply elem_of_nil in Hk|].
        apply list_elem_of_singleton in Hk as ->. set_solver.
  - intros _ q ->. rewrite !elem_of_app. left. right. right. left.
    by apply list_elem_of_singleton.
Qed.

End Properties.

(** ** The further theorems at concrete inputs *)

Lemma read_of_unknown_or_temporary_table_is_dropped_witness :
  (start_time sample_config <= re_timestamp read_of_t2
   < end_time sample_config)%Z /\
  (sample_table_str t2 ∉ [sample_table_str t1]) /\
  (let step :=
     _store_usage_event sample_config sample_externals
       {| read_event := Some read_of_t2; query_event := None |}
       [sample_table_str t1] new_extractor in
   step.1 = Returned false /\
   usage_state step.2 = usage_state new_extractor /\
   dropped (report step.2) = [sample_table_str t2] /\
   num_usage_resources_dropped (report step.2) = 1).
Proof.
  assert (Hwin : (start_time sample_config <= re_timestamp read_of_t2
                  < end_time sample_config)%Z) by (split; [apply Z.leb_le | apply Z.ltb_lt]; vm_compute; reflexivity).
  assert (Hunknown : sample_table_str t2 ∉ [sample_table_str t1])
    by (apply (bool_decide_unpack _); vm_compute; exact I).
  split; [exact Hwin|]. split; [exact Hunknown|].
  pose proof (read_of_unknown_or_temporary_table_is_dropped
                sample_config sample_externals read_of_t2 None
                [sample_table_str t1] new_extractor Hwin (or_introl Hunknown))
    as (Hret & Hstate & _ & _ & _ & Hdropped & Hcount & _).
  split; [exact Hret|]. split; [exact Hstate|]. split; [exact Hdropped|].
  rewrite Hcount. vm_compute. reflexivity.
Defined.

Lemma sample_uuid4_distinct n m :
  n < 3 -> m < 3 -> sample_uuid4 n = sample_uuid4 m -> n = m.
Proof.
  intros Hn Hm.
  destruct n as [|[|[|n]]], m as [|[|[|m]]]; try lia; try reflexivity;
    vm_compute; discriminate.
Qed.

Lemma keys_drawn_new_extractor : keys_drawn sample_externals new_extractor.
Proof. split; intros k Hk; by apply elem_of_nil in Hk. Qed.

Lemma stored_reads_are_the_accepted_reads_witness :
  accepted_reads sample_config sample_externals [sample_table_str t1]
    colliding_events
  = omap read_event [a_read "job1" 10 t1] /\
  (read_events
     (usage_state
        (_ingest_events sample_config sample_externals colliding_events
           [sample_table_str t1] new_extractor).2)).*2
  = omap read_event [a_read "job1" 10 t1].
Proof.
  assert (Hreads :
    accepted_reads sample_config sample_externals [sample_table_str t1]
      colliding_events
    = omap read_event [a_read "job1" 10 t1]) by (vm_compute; reflexivity).
  split; [exact Hreads|]. rewrite <- Hreads.
  apply (stored_reads_are_the_accepted_reads sample_config sample_externals
           colliding_events [sample_table_str t1] new_extractor).
  - intros n. reflexivity.
  - assert (uuids_drawn
              (_ingest_events sample_config sample_externals colliding_events
                 [sample_table_str t1] new_extractor).2 = 3) as ->
      by (vm_compute; reflexivity).
    exact sample_uuid4_distinct.
  - exact keys_drawn_new_extractor.
Defined.

Lemma column_accesses_follow_the_stored_reads_witness :
  let s' :=
    (_ingest_events sample_config sample_externals colliding_events
       [sample_table_str t1] new_extractor).2 in
  (column_accesses (usage_state s')).*2
  = flat_map (fun row : string * ReadEvent => map (pair row.1) (fieldsRead row.2))
      (read_events (usage_state s')).
Proof.
  apply (column_accesses_follow_the_stored_reads sample_config sample_externals
           colliding_events [sample_table_str t1] new_extractor).
  - intros n. reflexivity.
  - assert (uuids_drawn
              (_ingest_events sample_config sample_externals colliding_events
                 [sample_table_str t1] new_extractor).2 = 3) as ->
      by (vm_compute; reflexivity).
    exact sample_uuid4_distinct.
  - exact keys_drawn_new_extractor.
  - reflexivity.
Defined.

Lemma hash_entries_are_never_overwritten_witness :
  queries (usage_state insert_ingested)
    !! MD5.hexdigest "INSERT INTO t1 SELECT c1 FROM t2"
  = Some "INSERT INTO t1 SELECT c1 FROM t2" /\
  queries
    (usage_state
       (_ingest_events sample_config sample_externals colliding_events
          [sample_table_str t1] insert_ingested).2)
    !! MD5.hexdigest "INSERT INTO t1 SELECT c1 FROM t2"
  = Some "INSERT INTO t1 SELECT c1 FROM t2".
Proof.
  assert (Hheld :
    queries (usage_state insert_ingested)
      !! MD5.hexdigest "INSERT INTO t1 SELECT c1 FROM t2"
    = Some "INSERT INTO t1 SELECT c1 FROM t2") by (vm_compute; reflexivity).
  split; [exact Hheld|].
  exact (hash_entries_are_never_overwritten sample_config sample_externals
           colliding_events [sample_table_str t1] insert_ingested _ _ Hheld).
Defined.


Lemma no_usage_record_without_a_joined_read_witness :
  let u :=
    usage_state
      (_ingest_events sample_config sample_externals two_reads
         [sample_table_str t1] new_extractor).2 in
  length (read_events u) = 2 /\ query_events u = [] /\
  usage_statistics sample_externals 2 u = [].
Proof.
  intros u.
  assert (Hnone : query_events u = []) by (vm_compute; reflexivity).
  split; [vm_compute; reflexivity|]. split; [exact Hnone|].
  apply (no_usage_record_without_a_joined_read sample_externals 2 u).
  intros r q _ Hq. rewrite Hnone in Hq. by apply elem_of_nil in Hq.
Defined.

Lemma frequencies_add_up_to_the_group_sizes_witness :
  topn_entry ∈ usage_statistics sample_externals 2 (usage_state topn_ingested)
  /\ sum_list_with snd (us_query_freq topn_entry) = 13
  /\ sum_list_with snd (us_user_freq topn_entry)
     = length (read_events (usage_state topn_ingested)).
Proof.
  assert (Hin : topn_entry
                ∈ usage_statistics sample_externals 2
                    (usage_state topn_ingested)).
  { assert (usage_statistics sample_externals 2 (usage_state topn_ingested)
            = [topn_entry]) as -> by (vm_compute; reflexivity).
    left. }
  split; [exact Hin|].
  pose proof (frequencies_add_up_to_the_group_sizes sample_externals 2
                (usage_state topn_ingested) topn_entry Hin)
    as (_ & Hq & Hu & _).
  split; [exact (Hq ltac:(lia))|].
  rewrite Hu. vm_compute. reflexivity.
Defined.










Lemma references_held_insert_ingested : references_held insert_ingested.
Proof.
  intros name q Hin.
  assert (Hq : query_events (usage_state insert_ingested)
               = [("job1", set_query an_insert_event
                            (MD5.hexdigest "INSERT INTO t1 SELECT c1 FROM t2"))])
    by (vm_compute; reflexivity).
  rewrite Hq in Hin. apply list_elem_of_singleton in Hin.
  assert (Hname : name = "job1") by exact (f_equal fst Hin).
  assert (Hq' : q = set_query an_insert_event
                      (MD5.hexdigest "INSERT INTO t1 SELECT c1 FROM t2"))
    by exact (f_equal snd Hin).
  subst name q. left. exists "INSERT INTO t1 SELECT c1 FROM t2".
  vm_compute. reflexivity.
Qed.

Lemma text_property_is_the_query_reference_witness :
  stored_insert ∈ standalone_events (usage_state insert_ingested) /\
  exists urn aspect s' props,
    _create_operation_workunit sample_config sample_externals stored_insert
      [sample_table_str t1] insert_ingested
    = (Returned (Some (OperationWorkUnit urn aspect)), s') /\
    customProperties aspect = Some props /\
    ("text", MD5.hexdigest "INSERT INTO t1 SELECT c1 FROM t2") ∈ props /\
    (is_Some (queries (usage_state insert_ingested)
                !! MD5.hexdigest "INSERT INTO t1 SELECT c1 FROM t2")
     \/ is_Some (uuid_to_query insert_ingested
                   !! MD5.hexdigest "INSERT INTO t1 SELECT c1 FROM t2")).
Proof.
  assert (Hin : stored_insert
                ∈ standalone_events (usage_state insert_ingested)).
  { assert (standalone_events (usage_state insert_ingested) = [stored_insert])
      as -> by (vm_compute; reflexivity).
    left. }
  split; [exact Hin|].
  assert (Hderivable :
    derivable sample_config sample_externals [sample_table_str t1]
      stored_insert = true) by (vm_compute; reflexivity).
  destruct (create_operation_workunit_cases sample_config sample_externals
              stored_insert [sample_table_str t1] insert_ingested)
    as (o & s' & Hwu & Ho & _).
  destruct o as [wu|]; [|rewrite Hderivable in Ho; discriminate].
  destruct Ho as (_ & urn & aspect & -> & _).
  assert (Hprops : customProperties aspect
                   = Some (_create_operational_custom_properties sample_config
                             stored_insert)).
  { exact (create_operation_workunit_properties sample_config sample_externals
             _ _ _ _ _ _ Hwu). }
  assert (Htext : ("text", MD5.hexdigest "INSERT INTO t1 SELECT c1 FROM t2")
                  ∈ _create_operational_custom_properties sample_config
                      stored_insert).
  { apply (bool_decide_unpack _). vm_compute. exact I. }
  exists urn, aspect, s',
    (_create_operational_custom_properties sample_config stored_insert).
  split; [exact Hwu|]. split; [exact Hprops|].
  split; [exact Htext|].
  exact (proj2
    (text_property_is_the_query_reference sample_config
       sample_externals stored_insert [sample_table_str t1]
       insert_ingested insert_ingested urn aspect s' _ _
       references_held_insert_ingested Hin Hwu Hprops Htext)).
Defined.
